(** * img2excel: the pixel-to-cell colour pipeline of [img2excel.py]

    A shallow embedding of [ColorQuantizer], [ExcelSizeValidator] and of
    [ImageToExcelConverter.conversion_worker] / [color_distance].

    Python integers are [Z], strings are [string], the style cache (a
    [dict], which iterates in insertion order) is an association list, and
    the body of the worker runs in a small state-and-exception monad whose
    state holds the local variables of the worker, the message queue and
    the cells written to the sheet. *)

From Stdlib Require Import ZArith List String Ascii Bool Lia.
Import ListNotations.

Local Open Scope string_scope.
Local Open Scope list_scope.
Local Open Scope Z_scope.

(* ================================================================== *)
(** ** Exceptions and results *)

(** The exceptions the modelled code can raise.  [ExternalError] stands for
    whatever a collaborator (image decoder, workbook writer) raises. *)
Inductive exn : Type :=
| ZeroDivisionError
| ValueError (what : string)
| KeyError (key : string)
| IndexError
| ExternalError (what : string).

Inductive result (A : Type) : Type :=
| Ok (a : A)
| Raise (e : exn).
Arguments Ok {A} a.
Arguments Raise {A} e.

Definition rbind {A B} (m : result A) (k : A -> result B) : result B :=
  match m with
  | Ok a => k a
  | Raise e => Raise e
  end.

Declare Scope result_scope.
Delimit Scope result_scope with res.
Notation "x <- m ;; k" := (rbind m (fun x => k))
  (at level 61, m at next level, right associativity) : result_scope.

(* ================================================================== *)
(** ** ColorQuantizer *)

Definition rgb : Type := (Z * Z * Z)%type.

(** [c >> n] and [c << n] on Python integers: a negative shift count
    raises [ValueError]. *)
Definition py_rshift (c n : Z) : result Z :=
  if n <? 0 then Raise (ValueError "negative shift count")
  else Ok (Z.shiftr c n).

Definition py_lshift (c n : Z) : result Z :=
  if n <? 0 then Raise (ValueError "negative shift count")
  else Ok (Z.shiftl c n).

(** One element of the generator [(c >> shift) << shift for c in rgb]. *)
Definition quantize_channel (shift c : Z) : result Z :=
  (x <- py_rshift c shift ;; py_lshift x shift)%res.

(** [ColorQuantizer.quantize_color(rgb, bits)]. *)
Definition quantize_color (c : rgb) (bits : Z) : result rgb :=
  let shift := 8 - bits in
  let '(r, g, b) := c in
  (r' <- quantize_channel shift r ;;
   g' <- quantize_channel shift g ;;
   b' <- quantize_channel shift b ;;
   Ok (r', g', b'))%res.

(* ================================================================== *)
(** ** ExcelSizeValidator *)

(** The class object: [validate_size] is a classmethod and reads its
    ceilings through [cls]. *)
Record validator_class : Type := {
  MAX_STYLES : Z;
  MAX_DIMENSIONS : Z * Z   (* (max rows, max columns) *)
}.

Definition ExcelSizeValidator : validator_class :=
  {| MAX_STYLES := 64000; MAX_DIMENSIONS := (1048576, 16384) |}.

(** The text returned next to the flag.  The two failure texts are
    f-strings that name the image height (resp. width), interpolate its
    value and then the ceiling it exceeds; the success text is empty. *)
Inductive size_message : Type :=
| NoMessage
| HeightExceeds (height max_rows : Z)
| WidthExceeds (width max_cols : Z).

Definition validate_size (cls : validator_class) (width height : Z)
  : bool * size_message :=
  let '(max_rows, max_cols) := MAX_DIMENSIONS cls in
  if height >? max_rows then (false, HeightExceeds height max_rows)
  else if width >? max_cols then (false, WidthExceeds width max_cols)
  else (true, NoMessage).

(* ================================================================== *)
(** ** Hexadecimal keys: formatting and parsing *)

Definition hex_digit (d : Z) : ascii :=
  match d with
  | 0 => "0" | 1 => "1" | 2 => "2" | 3 => "3"
  | 4 => "4" | 5 => "5" | 6 => "6" | 7 => "7"
  | 8 => "8" | 9 => "9" | 10 => "A" | 11 => "B"
  | 12 => "C" | 13 => "D" | 14 => "E" | _ => "F"
  end%char.

(** Upper-case hexadecimal digits of a non-negative [n], most significant
    first, in front of [acc]. *)
Fixpoint hex_digits (fuel : nat) (n : Z) (acc : string) : string :=
  match fuel with
  | O => acc
  | S fuel' =>
      let acc' := String (hex_digit (n mod 16)) acc in
      if n / 16 =? 0 then acc' else hex_digits fuel' (n / 16) acc'
  end.

(** [format(n, "X")]. *)
Definition format_X (n : Z) : string :=
  if n <? 0
  then String "-"%char (hex_digits (S (Z.to_nat (Z.log2 (- n)))) (- n) "")
  else hex_digits (S (Z.to_nat (Z.log2 n))) n "".

(** [format(n, "02X")]: zero padding to a total width of two; only a
    single digit is shorter than that. *)
Definition format_02X (n : Z) : string :=
  let s := format_X n in
  if (String.length s <? 2)%nat then String "0"%char s else s.

(** The key built at line 175:
    [f"FF{q[0]:02X}{q[1]:02X}{q[2]:02X}"]. *)
Definition hex_color_of (q : rgb) : string :=
  let '(r, g, b) := q in
  ("FF" ++ format_02X r ++ format_02X g ++ format_02X b)%string.

Definition hex_value (c : ascii) : option Z :=
  let n := Z.of_nat (nat_of_ascii c) in
  if (48 <=? n) && (n <=? 57) then Some (n - 48)
  else if (65 <=? n) && (n <=? 70) then Some (n - 55)
  else if (97 <=? n) && (n <=? 102) then Some (n - 87)
  else None.

Definition is_space (c : ascii) : bool :=
  let n := Z.of_nat (nat_of_ascii c) in
  ((9 <=? n) && (n <=? 13)) || ((28 <=? n) && (n <=? 32)).

Fixpoint lstrip (l : list ascii) : list ascii :=
  match l with
  | c :: l' => if is_space c then lstrip l' else l
  | [] => []
  end.

Definition strip (l : list ascii) : list ascii :=
  rev (lstrip (rev (lstrip l))).

Fixpoint hex_number (l : list ascii) (acc : Z) : option Z :=
  match l with
  | [] => Some acc
  | c :: l' =>
      match hex_value c with
      | Some d => hex_number l' (16 * acc + d)
      | None => None
      end
  end.

(** [int(s, 16)] on the slices [hex_to_rgb] takes, which have at most two
    characters: surrounding white space, an optional sign, then at least
    one hexadecimal digit.  (The prefix [0x] and the digit separator [_]
    that [int] accepts as well need three characters to form a literal.) *)
Definition int16 (s : string) : result Z :=
  let invalid := Raise (ValueError "invalid literal for int() with base 16") in
  let of_digits (sign : Z) (l : list ascii) :=
    match l with
    | [] => invalid
    | _ => match hex_number l 0 with
           | Some n => Ok (sign * n)
           | None => invalid
           end
    end in
  match strip (list_ascii_of_string s) with
  | "-"%char :: l => of_digits (-1) l
  | "+"%char :: l => of_digits 1 l
  | l => of_digits 1 l
  end.

(** The nested helper of [color_distance]:
    [tuple(int(h[i:i + 2], 16) for i in (2, 4, 6))]. *)
Definition hex_to_rgb (h : string) : result rgb :=
  (r <- int16 (substring 2 2 h) ;;
   g <- int16 (substring 4 2 h) ;;
   b <- int16 (substring 6 2 h) ;;
   Ok (r, g, b))%res.

(** [ImageToExcelConverter.color_distance(hex1, hex2)]:
    [sum((a - b) ** 2 for a, b in zip(rgb1, rgb2))]. *)
Definition color_distance (hex1 hex2 : string) : result Z :=
  (rgb1 <- hex_to_rgb hex1 ;;
   rgb2 <- hex_to_rgb hex2 ;;
   let '(r1, g1, b1) := rgb1 in
   let '(r2, g2, b2) := rgb2 in
   Ok ((r1 - r2) ^ 2 + (g1 - g2) ^ 2 + (b1 - b2) ^ 2))%res.

(* ================================================================== *)
(** ** The worker's data *)

(** [PatternFill(start_color=..., end_color=..., fill_type=...)]: the
    style handle stored in the cache and assigned to cells. *)
Record PatternFill : Type := {
  start_color : string;
  end_color : string;
  fill_type : string
}.

(** A decoded image after [convert("RGB")]: its size and its pixel data,
    every channel one byte. *)
Record image : Type := {
  img_width : Z;
  img_height : Z;
  img_data : Z -> Z -> Byte.byte * Byte.byte * Byte.byte
}.

Definition Z_of_byte (b : Byte.byte) : Z := Z.of_N (Byte.to_N b).

(** [pixels[x, y]] on the access object of [img.load()]: a negative index
    counts from the far edge, an index outside the image raises
    [IndexError]. *)
Definition pixel_access (img : image) (x y : Z) : result rgb :=
  let x' := if x <? 0 then img_width img + x else x in
  let y' := if y <? 0 then img_height img + y else y in
  if (0 <=? x') && (x' <? img_width img) && (0 <=? y') && (y' <? img_height img)
  then let '(r, g, b) := img_data img x' y' in
       Ok (Z_of_byte r, Z_of_byte g, Z_of_byte b)
  else Raise IndexError.

(** [os.path.join(output_dir, splitext(basename(image_path))[0] + "_pixel.xlsx")],
    kept symbolic in its two arguments. *)
Record output_location : Type := {
  in_directory : string;
  derived_from : string
}.

(** The text of an ["error"] message: the three fixed texts of the worker
    and [str(e)] of a caught exception. *)
Inductive error_text : Type :=
| PathsMissing
| FileMissing
| SizeExceeded (msg : size_message)
| ExceptionText (e : exn).

(** The tagged tuples put on the queue.  The payload of ["progress"] is
    the float [processed / total_pixels * 100], kept as its two operands. *)
Inductive message : Type :=
| Progress (processed total_pixels : Z)
| Warning
| Success (output_path : output_location) (style_count : Z)
| Error (text : error_text).

(** What one run of the worker is given: the two entry fields, the
    precision chosen on the scale, and the answers of its collaborators. *)
Record request : Type := {
  image_path : string;
  output_dir : string;
  quantization_bits : Z;         (* self.quantization_bits, fixed during the run *)
  path_exists : bool;            (* os.path.exists(image_path) *)
  opened : result image;         (* Image.open(image_path), then convert("RGB") *)
  save_error : option exn        (* what wb.save(output_path) raises, if anything *)
}.

(** The local variables of the worker together with what it leaves
    behind: the queue, the cells of the sheet and the saved file. *)
Record worker_state : Type := {
  queue : list message;                          (* oldest first *)
  color_cache : list (string * PatternFill);     (* in insertion order *)
  style_count : Z;
  warning_shown : bool;
  processed : Z;
  cells : list (Z * Z * PatternFill);            (* (row, column, fill), oldest first *)
  saved : option output_location
}.

Definition initial_state : worker_state :=
  {| queue := []; color_cache := []; style_count := 0; warning_shown := false;
     processed := 0; cells := []; saved := None |}.

Definition set_queue (q : list message) (s : worker_state) : worker_state :=
  {| queue := q; color_cache := color_cache s; style_count := style_count s;
     warning_shown := warning_shown s; processed := processed s;
     cells := cells s; saved := saved s |}.

Definition set_color_cache (c : list (string * PatternFill)) (s : worker_state)
  : worker_state :=
  {| queue := queue s; color_cache := c; style_count := style_count s;
     warning_shown := warning_shown s; processed := processed s;
     cells := cells s; saved := saved s |}.

Definition set_style_count (n : Z) (s : worker_state) : worker_state :=
  {| queue := queue s; color_cache := color_cache s; style_count := n;
     warning_shown := warning_shown s; processed := processed s;
     cells := cells s; saved := saved s |}.

Definition set_warning_shown (b : bool) (s : worker_state) : worker_state :=
  {| queue := queue s; color_cache := color_cache s; style_count := style_count s;
     warning_shown := b; processed := processed s;
     cells := cells s; saved := saved s |}.

Definition set_processed (n : Z) (s : worker_state) : worker_state :=
  {| queue := queue s; color_cache := color_cache s; style_count := style_count s;
     warning_shown := warning_shown s; processed := n;
     cells := cells s; saved := saved s |}.

Definition set_cells (c : list (Z * Z * PatternFill)) (s : worker_state)
  : worker_state :=
  {| queue := queue s; color_cache := color_cache s; style_count := style_count s;
     warning_shown := warning_shown s; processed := processed s;
     cells := c; saved := saved s |}.

Definition set_saved (o : option output_location) (s : worker_state)
  : worker_state :=
  {| queue := queue s; color_cache := color_cache s; style_count := style_count s;
     warning_shown := warning_shown s; processed := processed s;
     cells := cells s; saved := o |}.

(* ================================================================== *)
(** ** The worker monad: state and exceptions *)

Definition W (A : Type) : Type := worker_state -> result A * worker_state.

Definition ret {A} (a : A) : W A := fun s => (Ok a, s).

Definition bind {A B} (m : W A) (k : A -> W B) : W B :=
  fun s => match m s with
           | (Ok a, s') => k a s'
           | (Raise e, s') => (Raise e, s')
           end.

Definition lift {A} (r : result A) : W A := fun s => (r, s).
Definition gets {A} (f : worker_state -> A) : W A := fun s => (Ok (f s), s).
Definition modify (f : worker_state -> worker_state) : W unit :=
  fun s => (Ok tt, f s).

Declare Scope worker_scope.
Delimit Scope worker_scope with W.
Notation "x <- m ;; k" := (bind m (fun x => k))
  (at level 61, m at next level, right associativity) : worker_scope.
Notation "m ;; k" := (bind m (fun _ => k))
  (at level 61, right associativity) : worker_scope.

(** [for a in l: body(a)]; an exception leaves the loop. *)
Fixpoint for_each {A} (l : list A) (body : A -> W unit) : W unit :=
  match l with
  | [] => ret tt
  | a :: l' => (body a ;; for_each l' body)%W
  end.

(** [range(n)]. *)
Definition range (n : Z) : list Z := map Z.of_nat (seq 0 (Z.to_nat n)).

(** [self.queue.put(m)]. *)
Definition put (m : message) : W unit :=
  modify (fun s => set_queue (queue s ++ [m]) s).

(* ================================================================== *)
(** ** Dictionary and builtin helpers *)

Fixpoint dict_get {V} (d : list (string * V)) (k : string) : result V :=
  match d with
  | [] => Raise (KeyError k)
  | (k', v) :: d' => if String.eqb k k' then Ok v else dict_get d' k
  end.

Definition dict_mem {V} (k : string) (d : list (string * V)) : bool :=
  match dict_get d k with Ok _ => true | Raise _ => false end.

(** [d[k] = v]: an existing key keeps its place, a new one goes last. *)
Fixpoint dict_set {V} (d : list (string * V)) (k : string) (v : V)
  : list (string * V) :=
  match d with
  | [] => [(k, v)]
  | (k', v') :: d' =>
      if String.eqb k k' then (k', v) :: d' else (k', v') :: dict_set d' k v
  end.

Definition dict_keys {V} (d : list (string * V)) : list string := map fst d.

(** The scan of [min(iterable, key=f)] once a first candidate is held: a
    later element replaces it only when its key is strictly smaller. *)
Fixpoint min_scan (f : string -> result Z) (best : string) (best_key : Z)
  (l : list string) : result string :=
  match l with
  | [] => Ok best
  | k :: l' =>
      (d <- f k ;;
       if d <? best_key then min_scan f k d l' else min_scan f best best_key l')%res
  end.

Definition py_min (l : list string) (f : string -> result Z) : result string :=
  match l with
  | [] => Raise (ValueError "min() arg is an empty sequence")
  | k :: l' => (d <- f k ;; min_scan f k d l')%res
  end.

(** [a % b]. *)
Definition py_mod (a b : Z) : result Z :=
  if b =? 0 then Raise ZeroDivisionError else Ok (a mod b).

(* ================================================================== *)
(** ** conversion_worker *)

Definition solid_fill (hex_color : string) : PatternFill :=
  {| start_color := hex_color; end_color := hex_color; fill_type := "solid" |}.

(** Lines 178-192, the management of the style cache: the result is the
    key whose fill the cell receives. *)
Definition resolve_style (cls : validator_class) (hex_color : string) : W string :=
  (cache <- gets color_cache ;;
   if negb (dict_mem hex_color cache) then
     count <- gets style_count ;;
     if count >=? MAX_STYLES cls then
       shown <- gets warning_shown ;;
       (if negb shown
        then put Warning ;; modify (set_warning_shown true)
        else ret tt) ;;
       lift (py_min (dict_keys cache) (fun k => color_distance k hex_color))
     else
       modify (set_color_cache (dict_set cache hex_color (solid_fill hex_color))) ;;
       modify (set_style_count (count + 1)) ;;
       ret hex_color
   else ret hex_color)%W.

(** [sheet.cell(row=..., column=...).fill = fill]; the sheet refuses a row
    or column below 1. *)
Definition assign_cell (row column : Z) (fill : PatternFill) : W unit :=
  if (row <? 1) || (column <? 1)
  then lift (Raise (ValueError "Row or column values must be at least 1"))
  else modify (fun s => set_cells (cells s ++ [(row, column, fill)]) s).

(** Lines 172-200, the body of the two loops for the pixel [(x, y)]. *)
Definition process_pixel (cls : validator_class) (bits : Z) (img : image)
  (total_pixels : Z) (x y : Z) : W unit :=
  (px <- lift (pixel_access img x y) ;;
   quantized_rgb <- lift (quantize_color px bits) ;;
   hex_color <- resolve_style cls (hex_color_of quantized_rgb) ;;
   cache <- gets color_cache ;;
   fill <- lift (dict_get cache hex_color) ;;
   assign_cell (y + 1) (x + 1) fill ;;
   modify (fun s => set_processed (processed s + 1) s) ;;
   done <- gets processed ;;
   m <- lift (py_mod done (total_pixels / 200)) ;;
   if m =? 0 then put (Progress done total_pixels) else ret tt)%W.

(** Lines 170-171. *)
Definition pixel_loop (cls : validator_class) (bits : Z) (img : image)
  (total_pixels : Z) : W unit :=
  for_each (range (img_height img)) (fun y =>
    for_each (range (img_width img)) (fun x =>
      process_pixel cls bits img total_pixels x y)).

(** Lines 156-159: [get_column_letter] refuses a column above 18278; the
    widths and heights set here are read by nothing below. *)
Definition set_cell_sizes (width : Z) : W unit :=
  if 18278 <? width
  then lift (Raise (ValueError "Invalid column index"))
  else ret tt.

(** Lines 203-205. *)
Definition save_workbook (req : request) : W unit :=
  match save_error req with
  | Some e => lift (Raise e)
  | None =>
      modify (set_saved (Some {| in_directory := output_dir req;
                                 derived_from := image_path req |}))
  end.

Definition nonempty (s : string) : bool :=
  match s with EmptyString => false | _ => true end.

(** The [try] block of the worker, with the class it reads its limits
    from as a parameter. *)
Definition conversion_body (cls : validator_class) (req : request) : W unit :=
  if negb (nonempty (image_path req) && nonempty (output_dir req))
  then put (Error PathsMissing)
  else if negb (path_exists req)
  then put (Error FileMissing)
  else
    (img <- lift (opened req) ;;
     let width := img_width img in
     let height := img_height img in
     let '(is_valid, msg) := validate_size cls width height in
     if negb is_valid then put (Error (SizeExceeded msg))
     else
       set_cell_sizes width ;;
       let total_pixels := width * height in
       pixel_loop cls (quantization_bits req) img total_pixels ;;
       save_workbook req ;;
       count <- gets style_count ;;
       put (Success {| in_directory := output_dir req;
                       derived_from := image_path req |} count))%W.

(** The [except Exception as e] clause around it. *)
Definition run_worker (cls : validator_class) (req : request) : worker_state :=
  match conversion_body cls req initial_state with
  | (Ok _, s) => s
  | (Raise e, s) => set_queue (queue s ++ [Error (ExceptionText e)]) s
  end.

(** [ImageToExcelConverter.conversion_worker]: the limits are those of
    [ExcelSizeValidator]. *)
Definition conversion_worker (req : request) : worker_state :=
  run_worker ExcelSizeValidator req.

(* ================================================================== *)
(** ** The interactive side: start_conversion, process_queue, reset_ui *)

(** [tk.NORMAL] and [tk.DISABLED]. *)
Inductive widget_state : Type := NORMAL | DISABLED.

(** The two captions of the convert button: the one it is created with
    and the one it shows while a conversion runs. *)
Inductive button_text : Type := StartCaption | ConvertingCaption.

(** The texts of the status label: ready, initialising, and the f-string
    of line 231 over the float of a progress message. *)
Inductive status_text : Type :=
| ReadyStatus
| InitializingStatus
| ProgressStatus (processed total_pixels : Z).

(** [self.progress["value"]]: 0, or the float of a progress message. *)
Inductive bar_value : Type :=
| BarZero
| BarPercent (processed total_pixels : Z).

(** The message boxes shown, each with what its text interpolates. *)
Inductive dialog : Type :=
| InfoDialog (output_path : output_location) (style_count max_styles : Z)
| ErrorDialog (text : error_text)
| WarningDialog.

(** The attributes and widgets of [ImageToExcelConverter] that these
    three methods read or write. *)
Record ui_state : Type := {
  is_running : bool;
  convert_btn_state : widget_state;
  convert_btn_text : button_text;
  status_label : status_text;
  progress_bar : bar_value;
  dialogs : list dialog          (* oldest first *)
}.

(** The window as [__init__] and [create_widgets] leave it. *)
Definition initial_ui : ui_state :=
  {| is_running := false; convert_btn_state := NORMAL;
     convert_btn_text := StartCaption; status_label := ReadyStatus;
     progress_bar := BarZero; dialogs := [] |}.

(** [reset_ui]. *)
Definition reset_ui (ui : ui_state) : ui_state :=
  {| is_running := false; convert_btn_state := NORMAL;
     convert_btn_text := StartCaption; status_label := ReadyStatus;
     progress_bar := BarZero; dialogs := dialogs ui |}.

Definition show (d : dialog) (ui : ui_state) : ui_state :=
  {| is_running := is_running ui; convert_btn_state := convert_btn_state ui;
     convert_btn_text := convert_btn_text ui; status_label := status_label ui;
     progress_bar := progress_bar ui; dialogs := dialogs ui ++ [d] |}.

(** [start_conversion]: the new window state and whether a worker thread
    was started. *)
Definition start_conversion (ui : ui_state) : ui_state * bool :=
  if is_running ui then (ui, false)
  else ({| is_running := true; convert_btn_state := DISABLED;
           convert_btn_text := ConvertingCaption;
           status_label := InitializingStatus;
           progress_bar := BarZero; dialogs := dialogs ui |}, true).

(** One turn of the [while True] loop of [process_queue], lines 227-242. *)
Definition handle_message (ui : ui_state) (m : message) : ui_state :=
  match m with
  | Progress done total_pixels =>
      {| is_running := is_running ui; convert_btn_state := convert_btn_state ui;
         convert_btn_text := convert_btn_text ui;
         status_label := ProgressStatus done total_pixels;
         progress_bar := BarPercent done total_pixels; dialogs := dialogs ui |}
  | Success output_path count =>
      reset_ui (show (InfoDialog output_path count (MAX_STYLES ExcelSizeValidator)) ui)
  | Error text => reset_ui (show (ErrorDialog text) ui)
  | Warning => show WarningDialog ui
  end.

(** [process_queue] on the messages waiting in the queue: they are taken
    in order until [queue.Empty]. *)
Definition process_queue (ui : ui_state) (waiting : list message) : ui_state :=
  fold_left handle_message waiting ui.

(* ================================================================== *)
(** * The vocabulary of the properties *)

(** ** Colours and keys *)

(** A triple of 8-bit channels. *)
Definition byte_rgb (c : rgb) : Prop :=
  let '(r, g, b) := c in 0 <= r < 256 /\ 0 <= g < 256 /\ 0 <= b < 256.

(** The distance of the specification: the sum over the three channels
    of the squared differences. *)
Definition sq_distance (a b : rgb) : Z :=
  let '(r1, g1, b1) := a in
  let '(r2, g2, b2) := b in
  (r1 - r2) ^ 2 + (g1 - g2) ^ 2 + (b1 - b2) ^ 2.

(** A byte is printed as two characters which [int] reads back. *)
Definition two_digit_roundtrip (c : Z) : bool :=
  match format_02X c with
  | String a (String b EmptyString) =>
      match int16 (String a (String b EmptyString)) with
      | Ok n => n =? c
      | Raise _ => false
      end
  | _ => false
  end.

(** The cache holding one solid fill per colour of [cs], in that order. *)
Definition cache_of_colors (cs : list rgb) : list (string * PatternFill) :=
  map (fun c => (hex_color_of c, solid_fill (hex_color_of c))) cs.

(** [m] is the first element of [l] at which [g] is minimal. *)
Definition first_min {A} (g : A -> Z) (l : list A) (m : A) : Prop :=
  exists pre post,
    l = pre ++ m :: post
    /\ (forall a, In a pre -> g m < g a)
    /\ (forall a, In a post -> g m <= g a).

(** ** The loop and its messages *)

(** The pixels in the order of the two loops, as (y, x). *)
Definition scan_order (img : image) : list (Z * Z) :=
  flat_map (fun y => map (pair y) (range (img_width img))) (range (img_height img)).

(** The body of the loops at the element [(y, x)] of [scan_order]. *)
Definition visit (cls : validator_class) (bits : Z) (img : image) (total_pixels : Z)
  (p : Z * Z) : W unit :=
  process_pixel cls bits img total_pixels (snd p) (fst p).

(** The quantized colour of the pixel [(x, y)], when reading and
    quantizing it succeed (lines 173-174). *)
Definition pixel_color (bits : Z) (img : image) (x y : Z) : result rgb :=
  (px <- pixel_access img x y ;; quantize_color px bits)%res.

(** The pixel takes the branch of line 179: its key is not cached and the
    style count has reached the limit. *)
Definition falls_back (cls : validator_class) (bits : Z) (img : image)
  (s : worker_state) (p : Z * Z) : bool :=
  match pixel_color bits img (snd p) (fst p) with
  | Ok q => negb (dict_mem (hex_color_of q) (color_cache s))
            && (style_count s >=? MAX_STYLES cls)
  | Raise _ => false
  end.

Definition is_progress (m : message) : bool :=
  match m with Progress _ _ => true | _ => false end.

Definition is_warning (m : message) : bool :=
  match m with Warning => true | _ => false end.

Definition warnings (q : list message) : nat := List.length (filter is_warning q).

(** The part of the state the robust properties rest on: the count is
    the size of the cache, it stays within the limit, and the queue holds
    a warning exactly when the flag is set. *)
Definition counted (cls : validator_class) (s : worker_state) : Prop :=
  style_count s = Z.of_nat (List.length (color_cache s))
  /\ style_count s <= MAX_STYLES cls
  /\ warnings (queue s) = (if warning_shown s then 1 else 0)%nat.

(** ** The colours met by a run *)

Definition rgb_eqb (a b : rgb) : bool :=
  let '(r1, g1, b1) := a in
  let '(r2, g2, b2) := b in
  (r1 =? r2) && (g1 =? g2) && (b1 =? b2).

Definition seen (q : rgb) (acc : list rgb) : bool := existsb (rgb_eqb q) acc.

Definition add_distinct (acc : list rgb) (q : rgb) : list rgb :=
  if seen q acc then acc else acc ++ [q].

(** The distinct colours of [qs], each at its first occurrence. *)
Definition distinct (qs : list rgb) : list rgb := fold_left add_distinct qs [].

(** The colours that got a style: the first [M] distinct ones. *)
Definition admitted (M : nat) (qs : list rgb) : list rgb := firstn M (distinct qs).

(** More distinct colours than the limit have been met. *)
Definition overflowed (M : nat) (qs : list rgb) : bool :=
  (M <? List.length (distinct qs))%nat.

Definition capacity (cls : validator_class) : nat := Z.to_nat (MAX_STYLES cls).

(** The quantized colour of the element [p = (y, x)] of the scan. *)
Definition quantized (bits : Z) (img : image) (p : Z * Z) : rgb :=
  match pixel_color bits img (snd p) (fst p) with
  | Ok q => q
  | Raise _ => (0, 0, 0)
  end.

Definition in_image (img : image) (p : Z * Z) : Prop :=
  0 <= snd p < img_width img /\ 0 <= fst p < img_height img.

(** The colour whose style the pixel receives: its own when it is (or
    becomes) admitted, otherwise the first nearest admitted colour. *)
Definition resolved (M : nat) (qs : list rgb) (q c : rgb) : Prop :=
  if seen q (admitted M (qs ++ [q])) then c = q
  else first_min (fun c' => sq_distance c' q) (admitted M qs) c.

(** The state of a run that has met the colours [qs]. *)
Record tracks (cls : validator_class) (qs : list rgb) (s : worker_state) : Prop := {
  tr_bytes : Forall byte_rgb qs;
  tr_cache : color_cache s = cache_of_colors (admitted (capacity cls) qs);
  tr_count : style_count s = Z.of_nat (List.length (admitted (capacity cls) qs));
  tr_shown : warning_shown s = overflowed (capacity cls) qs;
  tr_warnings : warnings (queue s) = (if warning_shown s then 1 else 0)%nat
}.

(** The test of lines 178-179 in terms of the colours met. *)
Definition must_fall_back (M : nat) (qs : list rgb) (q : rgb) : bool :=
  negb (seen q (admitted M qs)) && (M <=? List.length (admitted M qs))%nat.

(** The progress message of line 200, if the checkpoint of line 199 is
    reached with [n] pixels processed. *)
Definition progress_at (total_pixels n : Z) : list message :=
  if n mod (total_pixels / 200) =? 0 then [Progress n total_pixels] else [].

(** The progress messages of [n] more pixels once [done] are processed. *)
Fixpoint checkpoints (total_pixels done : Z) (n : nat) : list message :=
  match n with
  | O => []
  | S n' => progress_at total_pixels (done + 1)
            ++ checkpoints total_pixels (done + 1) n'
  end.

(** The messages of the loop: progress and warning. *)
Definition advisory (m : message) : bool := is_progress m || is_warning m.

(** ** Requests and whole runs *)

(** A request whose collaborators all answer, for an image the validator
    accepts. *)
Record accepted (cls : validator_class) (req : request) (img : image) : Prop := {
  acc_image_path : image_path req <> "";
  acc_output_dir : output_dir req <> "";
  acc_exists : path_exists req = true;
  acc_opened : opened req = Ok img;
  acc_width : 0 < img_width img <= snd (MAX_DIMENSIONS cls);
  acc_height : 0 < img_height img <= fst (MAX_DIMENSIONS cls);
  acc_columns : img_width img <= 18278
}.

Definition output_of (req : request) : output_location :=
  {| in_directory := output_dir req; derived_from := image_path req |}.

(** What follows the loop: the save and the success message, or the
    error message of the [except] clause. *)
Definition finish (req : request) (loop : result unit * worker_state) : worker_state :=
  match loop with
  | (Ok _, s) =>
      match save_error req with
      | Some e => set_queue (queue s ++ [Error (ExceptionText e)]) s
      | None =>
          set_queue (queue s ++ [Success (output_of req) (style_count s)])
            (set_saved (Some (output_of req)) s)
      end
  | (Raise e, s) => set_queue (queue s ++ [Error (ExceptionText e)]) s
  end.

(** The quantized colours of the image in scan order. *)
Definition image_colors (bits : Z) (img : image) : list rgb :=
  map (quantized bits img) (scan_order img).

(** The state in which the first checkpoint is reached. *)
Definition after_first_pixel (q : rgb) : worker_state :=
  {| queue := [];
     color_cache := [(hex_color_of q, solid_fill (hex_color_of q))];
     style_count := 1;
     warning_shown := false;
     processed := 1;
     cells := [(1, 1, solid_fill (hex_color_of q))];
     saved := None |}.

(** ** Sample inputs *)

Definition request_for (img : image) (bits : Z) : request :=
  {| image_path := "picture.png"; output_dir := "out"; quantization_bits := bits;
     path_exists := true; opened := Ok img; save_error := None |}.

(** One pixel of pure red. *)
Definition red_pixel : image :=
  {| img_width := 1; img_height := 1;
     img_data := fun _ _ => (Byte.xff, Byte.x00, Byte.x00) |}.

(** Two by two pixels of four colours. *)
Definition four_pixels : image :=
  {| img_width := 2; img_height := 2;
     img_data := fun x y => (if x =? 0 then Byte.x00 else Byte.xff,
                             if y =? 0 then Byte.x00 else Byte.xff,
                             Byte.x80) |}.

(** A grey ramp of [w] columns, every row alike. *)
Definition ramp (w h : Z) : image :=
  {| img_width := w; img_height := h;
     img_data := fun x _ =>
       let b := match Byte.of_N (Z.to_N (8 * x)) with
                | Some b => b
                | None => Byte.xff
                end in
       (b, b, b) |}.

(** A class with room for three styles only. *)
Definition three_styles : validator_class :=
  {| MAX_STYLES := 3; MAX_DIMENSIONS := MAX_DIMENSIONS ExcelSizeValidator |}.

(** ** Further vocabulary *)

(** The messages that end a run. *)
Definition is_terminal (m : message) : bool :=
  match m with
  | Success _ _ | Error _ => true
  | Progress _ _ | Warning => false
  end.

(** The cell of a pixel filled with its own quantized colour. *)
Definition exact_cell (bits : Z) (img : image) (p : Z * Z) : Z * Z * PatternFill :=
  (fst p + 1, snd p + 1, solid_fill (hex_color_of (quantized bits img p))).

(** The cells of the pixels [l], each filled with the colour it resolves
    to after the colours [qs] and those of the pixels before it. *)
Inductive cells_resolved (M : nat) (bits : Z) (img : image)
  : list rgb -> list (Z * Z) -> list (Z * Z * PatternFill) -> Prop :=
| cells_resolved_nil qs : cells_resolved M bits img qs [] []
| cells_resolved_cons qs p l c cs :
    resolved M qs (quantized bits img p) c ->
    cells_resolved M bits img (qs ++ [quantized bits img p]) l cs ->
    cells_resolved M bits img qs (p :: l)
      ((fst p + 1, snd p + 1, solid_fill (hex_color_of c)) :: cs).

(** The window while a conversion runs: flagged, button disabled. *)
Definition busy (ui : ui_state) : Prop :=
  is_running ui = true /\ convert_btn_state ui = DISABLED.

(** The window at rest, whatever dialogs it has shown. *)
Definition idle (ui : ui_state) : Prop :=
  is_running ui = false /\ convert_btn_state ui = NORMAL
  /\ convert_btn_text ui = StartCaption /\ status_label ui = ReadyStatus
  /\ progress_bar ui = BarZero.

(** The dialog a message opens, if any. *)
Definition dialog_of (m : message) : list dialog :=
  match m with
  | Progress _ _ => []
  | Warning => [WarningDialog]
  | Success output_path count =>
      [InfoDialog output_path count (MAX_STYLES ExcelSizeValidator)]
  | Error text => [ErrorDialog text]
  end.

(** Every cell written so far holds a fill of the cache. *)
Definition cells_cached (s : worker_state) : Prop :=
  forall cell, In cell (cells s) -> In (snd cell) (map snd (color_cache s)).

(* ================================================================== *)
(** * Properties *)

(** ** The quantizer *)

Section Quantizer.

Lemma quantize_channel_ok shift c :
  0 <= shift ->
  quantize_channel shift c = Ok (Z.shiftl (Z.shiftr c shift) shift).
Proof.
  intros Hs. unfold quantize_channel, py_rshift, py_lshift.
  destruct (shift <? 0) eqn:E; [apply Z.ltb_lt in E; lia | reflexivity].
Qed.

Lemma quantize_channel_negative shift c :
  shift < 0 ->
  quantize_channel shift c = Raise (ValueError "negative shift count").
Proof.
  intros Hs. unfold quantize_channel, py_rshift.
  destruct (shift <? 0) eqn:E; [reflexivity | apply Z.ltb_ge in E; lia].
Qed.

(** Shifting right then left by [s] clears the [s] low bits. *)
Lemma shift_clears_low_bits c s :
  0 <= s -> Z.shiftl (Z.shiftr c s) s = c - c mod 2 ^ s.
Proof.
  intros Hs. rewrite Z.shiftl_mul_pow2, Z.shiftr_div_pow2 by assumption.
  assert (Hp : 0 < 2 ^ s) by (apply Z.pow_pos_nonneg; lia).
  pose proof (Z.div_mod c (2 ^ s)) as Hd. lia.
Qed.

Lemma shift_testbit c s i :
  0 <= s -> 0 <= i ->
  Z.testbit (Z.shiftl (Z.shiftr c s) s) i = if i <? s then false else Z.testbit c i.
Proof.
  intros Hs Hi. destruct (i <? s) eqn:E.
  - apply Z.ltb_lt in E. apply Z.shiftl_spec_low. assumption.
  - apply Z.ltb_ge in E. rewrite Z.shiftl_spec by assumption.
    rewrite Z.shiftr_spec by lia. f_equal. lia.
Qed.

Lemma shift_range c s :
  0 <= s -> 0 <= c -> 0 <= Z.shiftl (Z.shiftr c s) s <= c.
Proof.
  intros Hs Hc. rewrite shift_clears_low_bits by assumption.
  assert (Hp : 0 < 2 ^ s) by (apply Z.pow_pos_nonneg; lia).
  pose proof (Z.mod_pos_bound c (2 ^ s) Hp).
  pose proof (Z.mod_le c (2 ^ s) Hc Hp). lia.
Qed.

Lemma shift_idempotent c s :
  0 <= s ->
  Z.shiftl (Z.shiftr (Z.shiftl (Z.shiftr c s) s) s) s = Z.shiftl (Z.shiftr c s) s.
Proof.
  intros Hs. rewrite Z.shiftr_shiftl_l by assumption.
  rewrite Z.sub_diag, Z.shiftl_0_r. reflexivity.
Qed.

Lemma quantize_color_ok r g b bits :
  bits <= 8 ->
  quantize_color (r, g, b) bits =
  Ok (Z.shiftl (Z.shiftr r (8 - bits)) (8 - bits),
      Z.shiftl (Z.shiftr g (8 - bits)) (8 - bits),
      Z.shiftl (Z.shiftr b (8 - bits)) (8 - bits)).
Proof.
  intros Hb. unfold quantize_color.
  rewrite !quantize_channel_ok by lia. reflexivity.
Qed.

Lemma quantize_color_too_many_bits c bits :
  8 < bits ->
  quantize_color c bits = Raise (ValueError "negative shift count").
Proof.
  intros Hb. destruct c as [[r g] b]. unfold quantize_color.
  rewrite quantize_channel_negative by lia. reflexivity.
Qed.

End Quantizer.

Lemma byte_rgb_intro r g b :
  0 <= r < 256 -> 0 <= g < 256 -> 0 <= b < 256 -> byte_rgb (r, g, b).
Proof. intros Hr Hg Hb. hnf. auto. Qed.

Lemma quantize_color_byte_rgb c bits q :
  byte_rgb c -> quantize_color c bits = Ok q -> byte_rgb q.
Proof.
  destruct c as [[r g] b]. intros (Hr & Hg & Hb) Hq.
  destruct (Z_le_gt_dec bits 8) as [Hle | Hgt].
  - rewrite quantize_color_ok in Hq by assumption.
    assert (Hq' : q = (Z.shiftl (Z.shiftr r (8 - bits)) (8 - bits),
                       Z.shiftl (Z.shiftr g (8 - bits)) (8 - bits),
                       Z.shiftl (Z.shiftr b (8 - bits)) (8 - bits)))
      by congruence.
    subst q.
    pose proof (shift_range r (8 - bits) ltac:(lia) ltac:(lia)).
    pose proof (shift_range g (8 - bits) ltac:(lia) ltac:(lia)).
    pose proof (shift_range b (8 - bits) ltac:(lia) ltac:(lia)).
    apply byte_rgb_intro; lia.
  - rewrite quantize_color_too_many_bits in Hq by lia. discriminate.
Qed.

(** C3.  For 8-bit channels and [bits] in 1..8 the quantizer returns, per
    channel, [(c >> shift) << shift] with [shift = 8 - bits]; that value is
    [c] with its [shift] low bits cleared and is again an 8-bit value.
    White stays white at 8 bits and becomes (128,128,128) at 1 bit. *)
Theorem quantize_color_shift_rule (r g b bits : Z) :
  0 <= r < 256 -> 0 <= g < 256 -> 0 <= b < 256 -> 1 <= bits <= 8 ->
  let shift := 8 - bits in
  let q c := Z.shiftl (Z.shiftr c shift) shift in
  quantize_color (r, g, b) bits = Ok (q r, q g, q b)
  /\ (forall c, q c = c - c mod 2 ^ shift)
  /\ (forall c i, 0 <= i -> Z.testbit (q c) i = if i <? shift then false else Z.testbit c i)
  /\ byte_rgb (q r, q g, q b)
  /\ quantize_color (255, 255, 255) 8 = Ok (255, 255, 255)
  /\ quantize_color (255, 255, 255) 1 = Ok (128, 128, 128).
Proof.
  intros Hr Hg Hb Hbits shift q. subst shift q. cbv beta.
  split; [apply quantize_color_ok; lia|].
  split; [intros c; apply shift_clears_low_bits; lia|].
  split; [intros c i Hi; apply shift_testbit; lia|].
  split.
  - pose proof (shift_range r (8 - bits) ltac:(lia) ltac:(lia)).
    pose proof (shift_range g (8 - bits) ltac:(lia) ltac:(lia)).
    pose proof (shift_range b (8 - bits) ltac:(lia) ltac:(lia)).
    apply byte_rgb_intro; lia.
  - split; reflexivity.
Qed.

Lemma quantize_color_shift_rule_witness :
  quantize_color (255, 0, 0) 5 = Ok (248, 0, 0).
Proof.
  exact (proj1 (quantize_color_shift_rule 255 0 0 5
                  ltac:(lia) ltac:(lia) ltac:(lia) ltac:(lia))).
Defined.

(** C4.  At a fixed precision in 1..8, quantizing a quantized colour
    returns it unchanged. *)
Theorem quantize_color_idempotent (c : rgb) (bits : Z) :
  1 <= bits <= 8 ->
  exists q, quantize_color c bits = Ok q /\ quantize_color q bits = Ok q.
Proof.
  intros Hbits. destruct c as [[r g] b].
  eexists. split; [apply quantize_color_ok; lia|].
  rewrite quantize_color_ok by lia.
  rewrite !shift_idempotent by lia. reflexivity.
Qed.

Lemma quantize_color_idempotent_witness :
  exists q, quantize_color (201, 77, 5) 3 = Ok q /\ quantize_color q 3 = Ok q.
Proof.
  apply (quantize_color_idempotent (201, 77, 5) 3). lia.
Defined.

(* ================================================================== *)
(** ** The dimension validator *)

(** C7.  The validator accepts exactly when the height is within the row
    ceiling and the width within the column ceiling; a refusal names the
    dimension at fault (the height first) together with its value and the
    ceiling it exceeds.  With the ceilings of [ExcelSizeValidator] a
    20000 x 10 image is refused for its width and a 100 x 100 image is
    accepted. *)
Theorem validate_size_spec (cls : validator_class) (width height : Z) :
  let max_rows := fst (MAX_DIMENSIONS cls) in
  let max_cols := snd (MAX_DIMENSIONS cls) in
  (fst (validate_size cls width height) = true <->
     height <= max_rows /\ width <= max_cols)
  /\ (height <= max_rows -> width <= max_cols ->
        validate_size cls width height = (true, NoMessage))
  /\ (max_rows < height ->
        validate_size cls width height = (false, HeightExceeds height max_rows))
  /\ (height <= max_rows -> max_cols < width ->
        validate_size cls width height = (false, WidthExceeds width max_cols))
  /\ validate_size ExcelSizeValidator 20000 10 = (false, WidthExceeds 20000 16384)
  /\ validate_size ExcelSizeValidator 100 100 = (true, NoMessage).
Proof.
  unfold validate_size. destruct (MAX_DIMENSIONS cls) as [max_rows max_cols].
  cbn [fst snd].
  destruct (height >? max_rows) eqn:Eh; destruct (width >? max_cols) eqn:Ew;
    rewrite ?Z.gtb_ltb in Eh, Ew;
    try apply Z.ltb_lt in Eh; try apply Z.ltb_ge in Eh;
    try apply Z.ltb_lt in Ew; try apply Z.ltb_ge in Ew;
    cbn [fst];
    (split; [split; [intros H; try discriminate H; lia
                    | intros [H1 H2]; try reflexivity; lia] |]);
    repeat (split; [intros; first [reflexivity | lia] |]);
    reflexivity.
Qed.

Lemma validate_size_spec_witness :
  validate_size ExcelSizeValidator 5 2000000 = (false, HeightExceeds 2000000 1048576).
Proof.
  apply (proj1 (proj2 (proj2 (validate_size_spec ExcelSizeValidator 5 2000000)))).
  simpl. lia.
Defined.

(* ================================================================== *)
(** ** Keys and the colour distance *)

Lemma in_range n c : 0 <= c < n -> In c (range n).
Proof.
  intros Hc. unfold range. apply in_map_iff. exists (Z.to_nat c). split.
  - lia.
  - apply in_seq. lia.
Qed.

Lemma range_bounds n c : In c (range n) -> 0 <= c < n.
Proof.
  unfold range. intros Hin. apply in_map_iff in Hin.
  destruct Hin as (k & <- & Hk). apply in_seq in Hk. lia.
Qed.

Lemma two_digit_roundtrip_bytes : forallb two_digit_roundtrip (range 256) = true.
Proof. vm_compute. reflexivity. Qed.

Lemma format_02X_byte c :
  0 <= c < 256 ->
  exists a b, format_02X c = String a (String b EmptyString)
              /\ int16 (String a (String b EmptyString)) = Ok c.
Proof.
  intros Hc. pose proof two_digit_roundtrip_bytes as Hall.
  rewrite forallb_forall in Hall. specialize (Hall c (in_range 256 c Hc)).
  unfold two_digit_roundtrip in Hall.
  destruct (format_02X c) as [|a [|b [|? ?]]]; try discriminate.
  exists a, b. split; [reflexivity|].
  destruct (int16 (String a (String b EmptyString))) as [n|e]; try discriminate.
  apply Z.eqb_eq in Hall. congruence.
Qed.

Lemma hex_to_rgb_hex_color_of q :
  byte_rgb q -> hex_to_rgb (hex_color_of q) = Ok q.
Proof.
  destruct q as [[r g] b]. intros (Hr & Hg & Hb).
  destruct (format_02X_byte r Hr) as (r1 & r2 & Er & Ir).
  destruct (format_02X_byte g Hg) as (g1 & g2 & Eg & Ig).
  destruct (format_02X_byte b Hb) as (b1 & b2 & Eb & Ib).
  unfold hex_to_rgb, hex_color_of. rewrite Er, Eg, Eb.
  cbn [append substring]. rewrite Ir, Ig, Ib. reflexivity.
Qed.

Lemma hex_color_of_inj q1 q2 :
  byte_rgb q1 -> byte_rgb q2 -> hex_color_of q1 = hex_color_of q2 -> q1 = q2.
Proof.
  intros H1 H2 E. apply hex_to_rgb_hex_color_of in H1, H2.
  rewrite E in H1. congruence.
Qed.

(** On keys of 8-bit colours [color_distance] is the squared distance. *)
Lemma color_distance_hex a b :
  byte_rgb a -> byte_rgb b ->
  color_distance (hex_color_of a) (hex_color_of b) = Ok (sq_distance a b).
Proof.
  intros Ha Hb. unfold color_distance.
  rewrite (hex_to_rgb_hex_color_of a Ha), (hex_to_rgb_hex_color_of b Hb).
  destruct a as [[r1 g1] b1], b as [[r2 g2] b2]. reflexivity.
Qed.

Lemma sq_distance_refl c : sq_distance c c = 0.
Proof. destruct c as [[r g] b]. unfold sq_distance. rewrite !Z.sub_diag. reflexivity. Qed.

Lemma sq_distance_sym a b : sq_distance a b = sq_distance b a.
Proof.
  destruct a as [[r1 g1] b1], b as [[r2 g2] b2]. unfold sq_distance. nia.
Qed.

(* ================================================================== *)
(** ** The cache as a dictionary *)

Section Dict.

Context {V : Type}.
Implicit Types (d : list (string * V)) (k : string) (v : V).

Lemma dict_mem_true d k :
  dict_mem k d = true <-> In k (dict_keys d).
Proof.
  unfold dict_mem. induction d as [|[k' v'] d IH]; simpl.
  - split; [discriminate | tauto].
  - destruct (String.eqb k k') eqn:E.
    + apply String.eqb_eq in E. subst. tauto.
    + apply String.eqb_neq in E. rewrite IH. split; [tauto|].
      intros [H | H]; [congruence | assumption].
Qed.

Lemma dict_mem_false d k :
  dict_mem k d = false <-> ~ In k (dict_keys d).
Proof.
  rewrite <- dict_mem_true. destruct (dict_mem k d); split; congruence.
Qed.

(** Storing under a key that is absent appends one entry. *)
Lemma dict_set_absent d k v :
  dict_mem k d = false -> dict_set d k v = d ++ [(k, v)].
Proof.
  unfold dict_mem. induction d as [|[k' v'] d IH]; simpl; intros H.
  - reflexivity.
  - destruct (String.eqb k k'); [discriminate|]. rewrite IH by assumption.
    reflexivity.
Qed.

Lemma dict_get_app_absent d k v :
  dict_mem k d = false -> dict_get (d ++ [(k, v)]) k = Ok v.
Proof.
  unfold dict_mem. induction d as [|[k' v'] d IH]; simpl; intros H.
  - rewrite String.eqb_refl. reflexivity.
  - destruct (String.eqb k k'); [discriminate | auto].
Qed.

Lemma dict_get_present d k :
  dict_mem k d = true -> exists v, dict_get d k = Ok v /\ In (k, v) d.
Proof.
  unfold dict_mem. induction d as [|[k' v'] d IH]; simpl; intros H.
  - discriminate.
  - destruct (String.eqb k k') eqn:E.
    + apply String.eqb_eq in E. subst. eauto.
    + destruct (IH H) as (v & Hv & Hin). eauto.
Qed.

End Dict.

Lemma dict_keys_cache_of_colors cs :
  dict_keys (cache_of_colors cs) = map hex_color_of cs.
Proof. unfold dict_keys, cache_of_colors. rewrite map_map. reflexivity. Qed.

Lemma cache_of_colors_app cs cs' :
  cache_of_colors (cs ++ cs') = cache_of_colors cs ++ cache_of_colors cs'.
Proof. apply map_app. Qed.

Lemma cache_of_colors_length cs :
  List.length (cache_of_colors cs) = List.length cs.
Proof. apply length_map. Qed.

Lemma dict_mem_cache_of_colors cs q :
  Forall byte_rgb cs -> byte_rgb q ->
  (dict_mem (hex_color_of q) (cache_of_colors cs) = true <-> In q cs).
Proof.
  intros Hcs Hq. rewrite dict_mem_true, dict_keys_cache_of_colors, in_map_iff.
  split.
  - intros (c & E & Hin). rewrite Forall_forall in Hcs.
    apply hex_color_of_inj in E; [congruence | auto | auto].
  - intros Hin. exists q. auto.
Qed.

Lemma dict_get_cache_of_colors cs q :
  In q cs ->
  dict_get (cache_of_colors cs) (hex_color_of q) = Ok (solid_fill (hex_color_of q)).
Proof.
  intros Hin.
  assert (Hm : dict_mem (hex_color_of q) (cache_of_colors cs) = true).
  { rewrite dict_mem_true, dict_keys_cache_of_colors. apply in_map. assumption. }
  destruct (dict_get_present _ _ Hm) as (v & Hv & Hv').
  unfold cache_of_colors in Hv'. apply in_map_iff in Hv'.
  destruct Hv' as (c & E & _). rewrite Hv. congruence.
Qed.

(* ================================================================== *)
(** ** The scan for the nearest key *)

Lemma first_min_in {A} (g : A -> Z) l m : first_min g l m -> In m l.
Proof. intros (pre & post & -> & _). apply in_elt. Qed.

Lemma first_min_le {A} (g : A -> Z) l m a :
  first_min g l m -> In a l -> g m <= g a.
Proof.
  intros (pre & post & -> & Hpre & Hpost) Hin.
  apply in_app_or in Hin. destruct Hin as [Hin | [<- | Hin]].
  - specialize (Hpre a Hin). lia.
  - lia.
  - auto.
Qed.

Section MinScan.

Context {A : Type} (key : A -> string) (f : string -> result Z) (g : A -> Z).

Lemma min_scan_first_min l :
  forall seen best,
    (forall a, In a l -> f (key a) = Ok (g a)) ->
    first_min g seen best ->
    exists m, min_scan f (key best) (g best) (map key l) = Ok (key m)
              /\ first_min g (seen ++ l) m.
Proof.
  induction l as [|a l IH]; intros seen best Hf Hbest.
  - exists best. rewrite app_nil_r. auto.
  - cbn [map min_scan]. rewrite (Hf a (or_introl eq_refl)). cbn [rbind].
    assert (Hf' : forall a', In a' l -> f (key a') = Ok (g a'))
      by (intros; apply Hf; right; assumption).
    replace (seen ++ a :: l) with ((seen ++ [a]) ++ l)
      by (rewrite <- app_assoc; reflexivity).
    destruct (g a <? g best) eqn:E.
    + apply Z.ltb_lt in E. apply IH; [assumption|].
      exists seen, []. split; [reflexivity|]. split; [|intros ? []].
      intros a' Hin. pose proof (first_min_le g seen best a' Hbest Hin). lia.
    + apply Z.ltb_ge in E. apply IH; [assumption|].
      destruct Hbest as (pre & post & -> & Hpre & Hpost).
      exists pre, (post ++ [a]). split; [|split; [assumption|]].
      * rewrite <- app_assoc. reflexivity.
      * intros a' Hin. apply in_app_or in Hin.
        destruct Hin as [Hin | [<- | []]]; auto.
Qed.

Lemma py_min_first_min l :
  l <> [] ->
  (forall a, In a l -> f (key a) = Ok (g a)) ->
  exists m, py_min (map key l) f = Ok (key m) /\ first_min g l m.
Proof.
  destruct l as [|a l]; [congruence|]. intros _ Hf.
  cbn [map py_min]. rewrite (Hf a (or_introl eq_refl)). cbn [rbind].
  apply (min_scan_first_min l [a] a).
  - intros; apply Hf; right; assumption.
  - exists [], []. split; [reflexivity|]. split; intros ? [].
Qed.

End MinScan.

(** On a non-empty cache of 8-bit colours the scan of line 184 returns the
    key of the first colour nearest to the requested one. *)
Lemma nearest_key cs q :
  cs <> [] -> Forall byte_rgb cs -> byte_rgb q ->
  exists m,
    py_min (dict_keys (cache_of_colors cs))
           (fun k => color_distance k (hex_color_of q)) = Ok (hex_color_of m)
    /\ first_min (fun c => sq_distance c q) cs m.
Proof.
  intros Hne Hcs Hq. rewrite dict_keys_cache_of_colors.
  apply (py_min_first_min hex_color_of _ (fun c => sq_distance c q)); [assumption|].
  intros a Hin. rewrite Forall_forall in Hcs.
  apply color_distance_hex; auto.
Qed.

(* ================================================================== *)
(** ** Loops *)

Lemma for_each_app {A} (l1 l2 : list A) (body : A -> W unit) s :
  for_each (l1 ++ l2) body s =
  match for_each l1 body s with
  | (Ok _, s1) => for_each l2 body s1
  | (Raise e, s1) => (Raise e, s1)
  end.
Proof.
  revert s. induction l1 as [|a l1 IH]; intros s.
  - reflexivity.
  - cbn [app for_each]. unfold bind.
    destruct (body a s) as [[[]|e] s1]; [apply IH | reflexivity].
Qed.

Lemma for_each_map {A B} (h : A -> B) (l : list A) (body : B -> W unit) s :
  for_each (map h l) body s = for_each l (fun a => body (h a)) s.
Proof.
  revert s. induction l as [|a l IH]; intros s.
  - reflexivity.
  - cbn [map for_each]. unfold bind.
    destruct (body (h a) s) as [[[]|e] s1]; [apply IH | reflexivity].
Qed.

Lemma for_each_nested {A B} (outer : list A) (inner : list B)
  (body : A -> B -> W unit) s :
  for_each outer (fun a => for_each inner (body a)) s =
  for_each (flat_map (fun a => map (pair a) inner) outer)
           (fun p => body (fst p) (snd p)) s.
Proof.
  revert s. induction outer as [|a outer IH]; intros s.
  - reflexivity.
  - cbn [flat_map for_each]. rewrite for_each_app, for_each_map.
    unfold bind. cbn [fst snd].
    change (fun b => body a b) with (body a).
    destruct (for_each inner (body a) s) as [[[]|e] s1]; [apply IH | reflexivity].
Qed.

Lemma pixel_loop_scan_order cls bits img total s :
  pixel_loop cls bits img total s =
  for_each (scan_order img) (visit cls bits img total) s.
Proof.
  unfold pixel_loop, scan_order, visit.
  apply (for_each_nested (range (img_height img)) (range (img_width img))
           (fun y x => process_pixel cls bits img total x y)).
Qed.

Lemma range_length n : 0 <= n -> Z.of_nat (List.length (range n)) = n.
Proof. intros Hn. unfold range. rewrite length_map, length_seq. lia. Qed.

Lemma scan_order_length img :
  0 <= img_width img -> 0 <= img_height img ->
  Z.of_nat (List.length (scan_order img)) = img_width img * img_height img.
Proof.
  intros Hw Hh. unfold scan_order.
  pose proof (range_length (img_height img) Hh) as Hl. revert Hl.
  generalize (range (img_height img)) as rows. intros rows Hl.
  rewrite <- Hl. clear Hl. induction rows as [|y rows IH].
  - simpl. lia.
  - cbn [flat_map]. rewrite length_app, length_map. cbn [List.length].
    rewrite Nat2Z.inj_add, IH, Nat2Z.inj_succ, range_length by assumption. lia.
Qed.

Lemma scan_order_in_image img p :
  In p (scan_order img) ->
  0 <= snd p < img_width img /\ 0 <= fst p < img_height img.
Proof.
  unfold scan_order. intros Hin. apply in_flat_map in Hin.
  destruct Hin as (y & Hy & Hin). apply in_map_iff in Hin.
  destruct Hin as (x & <- & Hx). cbn [fst snd].
  split; apply range_bounds; assumption.
Qed.

(* ================================================================== *)
(** ** One pixel, whatever the state *)

Arguments hex_color_of : simpl never.
Arguments color_distance : simpl never.
Arguments quantize_color : simpl never.
Arguments pixel_access : simpl never.
Arguments py_min : simpl never.
Arguments dict_get : simpl never.
Arguments dict_mem : simpl never.
Arguments dict_set : simpl never.
Arguments Z.div : simpl never.
Arguments Z.modulo : simpl never.
Arguments Z.add : simpl never.
Arguments Z.geb : simpl never.
Arguments Z.ltb : simpl never.

(** Runs the body of the loop by cases on every test it makes. *)
Ltac pixel_cases :=
  unfold visit, process_pixel, resolve_style, assign_cell, falls_back, pixel_color,
    py_mod, put, bind, lift, gets, modify, ret;
  cbn [fst snd rbind];
  repeat match goal with
         | |- context [match ?r with Ok _ => _ | Raise _ => _ end] =>
             destruct r eqn:?; cbn [fst snd rbind negb andb orb]
         | |- context [if ?b then _ else _] =>
             destruct b eqn:?; cbn [fst snd rbind negb andb orb]
         end;
  repeat match goal with
         | H : negb _ = true |- _ => apply negb_true_iff in H
         | H : negb _ = false |- _ => apply negb_false_iff in H
         end;
  simpl.

(** What one pixel does to the cache: nothing, or one new entry at the
    end, the latter only below the limit. *)
Lemma visit_cache cls bits img total p s :
  let s' := snd (visit cls bits img total p s) in
  (color_cache s' = color_cache s /\ style_count s' = style_count s)
  \/ (exists k,
        dict_mem k (color_cache s) = false
        /\ style_count s < MAX_STYLES cls
        /\ color_cache s' = color_cache s ++ [(k, solid_fill k)]
        /\ style_count s' = style_count s + 1).
Proof.
  pixel_cases; auto;
    right; eexists; (split; [eassumption|]);
    (split; [rewrite Z.geb_leb in *; apply Z.leb_gt; assumption|]);
    rewrite dict_set_absent by assumption; split; reflexivity.
Qed.

(** What one pixel puts on the queue: a warning exactly when it falls
    back and none was shown before, then at most one progress message. *)
Lemma visit_queue cls bits img total p s :
  let s' := snd (visit cls bits img total p s) in
  exists ps,
    forallb is_progress ps = true
    /\ queue s' =
       queue s
       ++ (if falls_back cls bits img s p && negb (warning_shown s)
           then [Warning] else [])
       ++ ps.
Proof.
  pixel_cases;
    repeat match goal with
           | H : ?b = _ |- context [?b] => rewrite H
           end;
    cbn [negb andb app];
    first [ exists []; split; [reflexivity | rewrite ?app_nil_r; reflexivity]
          | eexists; split; [|rewrite <- ?app_assoc; cbn [app]; reflexivity];
            reflexivity ].
Qed.

Lemma visit_warning_shown cls bits img total p s :
  warning_shown (snd (visit cls bits img total p s)) =
  warning_shown s || falls_back cls bits img s p.
Proof.
  pixel_cases;
    repeat match goal with
           | H : ?b = _ |- context [?b] => rewrite H
           end;
    cbn [negb andb orb]; rewrite ?orb_false_r; reflexivity.
Qed.

Lemma visit_saved cls bits img total p s :
  saved (snd (visit cls bits img total p s)) = saved s.
Proof. pixel_cases; reflexivity. Qed.

Lemma counted_initial cls : 0 <= MAX_STYLES cls -> counted cls initial_state.
Proof. intros H. repeat split; [assumption]. Qed.

Lemma warnings_app q1 q2 : warnings (q1 ++ q2) = (warnings q1 + warnings q2)%nat.
Proof. unfold warnings. rewrite filter_app, length_app. reflexivity. Qed.

Lemma warnings_progress ps : forallb is_progress ps = true -> warnings ps = 0%nat.
Proof.
  unfold warnings. induction ps as [|m ps IH]; [reflexivity|].
  cbn [forallb filter]. intros H. apply andb_true_iff in H. destruct H as [Hm Hps].
  destruct m; try discriminate. cbn [is_warning]. auto.
Qed.

Lemma visit_counted cls bits img total p s :
  counted cls s -> counted cls (snd (visit cls bits img total p s)).
Proof.
  intros (Hc & Hm & Hw).
  pose proof (visit_cache cls bits img total p s) as Hcache.
  pose proof (visit_queue cls bits img total p s) as (ps & Hps & Hq).
  pose proof (visit_warning_shown cls bits img total p s) as Hshown.
  cbv zeta in Hcache.
  set (s' := snd (visit cls bits img total p s)) in *.
  unfold counted. rewrite Hq, Hshown, !warnings_app, (warnings_progress ps Hps), Hw.
  split; [|split].
  - destruct Hcache as [[-> ->] | (k & _ & _ & -> & ->)]; [assumption|].
    rewrite length_app. cbn [List.length]. lia.
  - destruct Hcache as [[_ ->] | (k & _ & Hlt & _ & ->)]; lia.
  - destruct (warning_shown s), (falls_back cls bits img s p); reflexivity.
Qed.

Lemma for_each_counted cls bits img total l s :
  counted cls s -> counted cls (snd (for_each l (visit cls bits img total) s)).
Proof.
  revert s. induction l as [|p l IH]; intros s Hs; [assumption|].
  cbn [for_each]. unfold bind.
  pose proof (visit_counted cls bits img total p s Hs) as Hs'.
  destruct (visit cls bits img total p s) as [[[]|e] s1]; cbn [snd] in *; auto.
Qed.

(** The cache after a loop extends the cache before it. *)
Lemma for_each_cache_grows cls bits img total l s :
  exists added,
    color_cache (snd (for_each l (visit cls bits img total) s)) =
    color_cache s ++ added.
Proof.
  revert s. induction l as [|p l IH]; intros s.
  - exists []. rewrite app_nil_r. reflexivity.
  - cbn [for_each]. unfold bind.
    pose proof (visit_cache cls bits img total p s) as Hcache. cbv zeta in Hcache.
    destruct (visit cls bits img total p s) as [[[]|e] s1]; cbn [snd] in *.
    + destruct (IH s1) as (added & ->).
      destruct Hcache as [[-> _] | (k & _ & _ & -> & _)]; eauto.
      rewrite <- app_assoc. eauto.
    + destruct Hcache as [[-> _] | (k & _ & _ & -> & _)]; eauto.
      exists []. rewrite app_nil_r. reflexivity.
Qed.

(* ================================================================== *)
(** ** The colours a run has met *)

Lemma rgb_eqb_eq a b : rgb_eqb a b = true <-> a = b.
Proof.
  destruct a as [[r1 g1] b1], b as [[r2 g2] b2]. unfold rgb_eqb.
  rewrite !andb_true_iff, !Z.eqb_eq. split.
  - intros [[-> ->] ->]. reflexivity.
  - intros E. injection E as -> -> ->. auto.
Qed.

Lemma seen_in q acc : seen q acc = true <-> In q acc.
Proof.
  unfold seen. rewrite existsb_exists. split.
  - intros (c & Hin & E). apply rgb_eqb_eq in E. subst. assumption.
  - intros Hin. exists q. split; [assumption | apply rgb_eqb_eq; reflexivity].
Qed.

Lemma seen_not_in q acc : seen q acc = false <-> ~ In q acc.
Proof. rewrite <- seen_in. destruct (seen q acc); split; congruence. Qed.

Lemma distinct_snoc qs q : distinct (qs ++ [q]) = add_distinct (distinct qs) q.
Proof. unfold distinct. rewrite fold_left_app. reflexivity. Qed.

Lemma in_distinct qs q : In q (distinct qs) <-> In q qs.
Proof.
  induction qs as [|c qs IH] using rev_ind.
  - reflexivity.
  - rewrite distinct_snoc. unfold add_distinct.
    destruct (seen c (distinct qs)) eqn:E.
    + apply seen_in in E. rewrite in_app_iff, <- IH. cbn [In].
      split; [tauto|]. intros [H | [<- | []]]; assumption.
    + rewrite !in_app_iff, IH. reflexivity.
Qed.

Lemma NoDup_distinct qs : NoDup (distinct qs).
Proof.
  induction qs as [|c qs IH] using rev_ind.
  - constructor.
  - rewrite distinct_snoc. unfold add_distinct.
    destruct (seen c (distinct qs)) eqn:E; [assumption|].
    apply seen_not_in in E. apply NoDup_app; [assumption | |].
    + repeat constructor. intros [].
    + intros a Ha [<- | []]. contradiction.
Qed.

Lemma in_firstn {A} (n : nat) (l : list A) a : In a (firstn n l) -> In a l.
Proof.
  intros H. rewrite <- (firstn_skipn n l). apply in_or_app. left. assumption.
Qed.

Lemma in_admitted M qs q : In q (admitted M qs) -> In q qs.
Proof. intros H. apply in_distinct. apply (in_firstn M). assumption. Qed.

(** The admitted colours change like the cache does at lines 178-192. *)
Lemma admitted_snoc M qs q :
  admitted M (qs ++ [q]) =
  if seen q (admitted M qs) then admitted M qs
  else if (List.length (admitted M qs) <? M)%nat then admitted M qs ++ [q]
       else admitted M qs.
Proof.
  unfold admitted. rewrite distinct_snoc. unfold add_distinct.
  set (d := distinct qs).
  pose proof (length_firstn M d) as Hlen.
  destruct (seen q (firstn M d)) eqn:Es.
  - apply seen_in in Es. apply in_firstn in Es. apply seen_in in Es.
    rewrite Es. reflexivity.
  - destruct (List.length (firstn M d) <? M)%nat eqn:El.
    + apply Nat.ltb_lt in El.
      assert (Hd : (List.length d < M)%nat) by lia.
      rewrite (firstn_all2 (n := M) d) in * by lia.
      rewrite Es. apply firstn_all2. rewrite length_app. cbn [List.length]. lia.
    + apply Nat.ltb_ge in El.
      assert (Hd : (M <= List.length d)%nat) by lia.
      destruct (seen q d); [reflexivity|].
      rewrite firstn_app. replace (M - List.length d)%nat with 0%nat by lia.
      cbn [firstn]. apply app_nil_r.
Qed.

Lemma overflowed_snoc M qs q :
  overflowed M (qs ++ [q]) =
  overflowed M qs
  || (negb (seen q (admitted M qs)) && (M <=? List.length (admitted M qs))%nat).
Proof.
  unfold overflowed, admitted. rewrite distinct_snoc. unfold add_distinct.
  set (d := distinct qs).
  pose proof (length_firstn M d) as Hlen.
  destruct (seen q (firstn M d)) eqn:Es.
  - apply seen_in in Es. apply in_firstn in Es. apply seen_in in Es.
    rewrite Es. cbn [negb andb]. rewrite orb_false_r. reflexivity.
  - cbn [negb andb]. destruct (seen q d) eqn:Ed.
    + assert (Hd : (M < List.length d)%nat).
      { destruct (Nat.lt_ge_cases M (List.length d)) as [H | H]; [assumption|].
        rewrite (firstn_all2 (n := M) d) in Es by assumption. congruence. }
      apply Nat.ltb_lt in Hd. rewrite Hd. reflexivity.
    + rewrite length_app. cbn [List.length].
      destruct (M <? List.length d)%nat eqn:E1;
        destruct (M <=? List.length (firstn M d))%nat eqn:E2;
        destruct (M <? List.length d + 1)%nat eqn:E3;
        try reflexivity;
        rewrite ?Nat.ltb_lt, ?Nat.ltb_ge, ?Nat.leb_le, ?Nat.leb_gt in *; lia.
Qed.

Lemma overflowed_length M qs :
  overflowed M qs = false -> admitted M qs = distinct qs.
Proof.
  unfold overflowed, admitted. intros H. apply Nat.ltb_ge in H.
  apply firstn_all2. assumption.
Qed.

(* ================================================================== *)
(** ** One pixel of a well-formed run *)

Lemma Z_of_byte_range b : 0 <= Z_of_byte b < 256.
Proof. unfold Z_of_byte. pose proof (Byte.to_N_bounded b). lia. Qed.

Lemma pixel_access_in_image img p :
  in_image img p ->
  exists c, pixel_access img (snd p) (fst p) = Ok c /\ byte_rgb c.
Proof.
  intros [[Hx1 Hx2] [Hy1 Hy2]]. unfold pixel_access.
  destruct (snd p <? 0) eqn:Ex; [apply Z.ltb_lt in Ex; lia|].
  destruct (fst p <? 0) eqn:Ey; [apply Z.ltb_lt in Ey; lia|].
  assert (E : (0 <=? snd p) && (snd p <? img_width img)
              && (0 <=? fst p) && (fst p <? img_height img) = true).
  { rewrite !andb_true_iff, !Z.leb_le, !Z.ltb_lt. lia. }
  rewrite E. destruct (img_data img (snd p) (fst p)) as [[r g] b].
  eexists. split; [reflexivity|].
  apply byte_rgb_intro; apply Z_of_byte_range.
Qed.

Lemma pixel_color_in_image bits img p :
  bits <= 8 -> in_image img p ->
  pixel_color bits img (snd p) (fst p) = Ok (quantized bits img p)
  /\ byte_rgb (quantized bits img p).
Proof.
  intros Hb Hp. destruct (pixel_access_in_image img p Hp) as (c & Hc & Hbyte).
  unfold quantized, pixel_color. rewrite Hc. cbn [rbind].
  destruct c as [[r g] b]. pose proof (quantize_color_ok r g b bits Hb) as Hq.
  rewrite Hq. split; [reflexivity|].
  apply (quantize_color_byte_rgb (r, g, b) bits); assumption.
Qed.

Lemma tracks_initial cls : tracks cls [] initial_state.
Proof.
  constructor; try reflexivity.
  - constructor.
  - cbn. unfold admitted. rewrite firstn_nil. reflexivity.
  - cbn. unfold admitted. rewrite firstn_nil. reflexivity.
Qed.

Lemma admitted_bytes M qs : Forall byte_rgb qs -> Forall byte_rgb (admitted M qs).
Proof.
  rewrite !Forall_forall. intros H c Hc. apply H. apply (in_admitted M). assumption.
Qed.

Lemma dict_mem_cache_seen cs q :
  Forall byte_rgb cs -> byte_rgb q ->
  dict_mem (hex_color_of q) (cache_of_colors cs) = seen q cs.
Proof.
  intros Hcs Hq. apply eq_true_iff_eq.
  rewrite dict_mem_cache_of_colors, seen_in by assumption. reflexivity.
Qed.

Lemma geb_capacity cls n :
  0 <= MAX_STYLES cls ->
  (Z.of_nat n >=? MAX_STYLES cls) = (capacity cls <=? n)%nat.
Proof.
  intros H. unfold capacity. rewrite Z.geb_leb. apply eq_true_iff_eq.
  rewrite Z.leb_le, Nat.leb_le. lia.
Qed.

(** Reads a field of an updated state. *)
Ltac state_simpl :=
  cbn [queue color_cache style_count warning_shown processed cells saved
       set_queue set_color_cache set_style_count set_warning_shown
       set_processed set_cells set_saved].

(** Lines 178-192 as one expression. *)
Lemma resolve_style_eq cls h s :
  resolve_style cls h s =
  if dict_mem h (color_cache s) then (Ok h, s)
  else if style_count s >=? MAX_STYLES cls then
         (py_min (dict_keys (color_cache s)) (fun k => color_distance k h),
          if warning_shown s then s
          else set_warning_shown true (set_queue (queue s ++ [Warning]) s))
       else (Ok h,
             set_style_count (style_count s + 1)
               (set_color_cache (dict_set (color_cache s) h (solid_fill h)) s)).
Proof.
  unfold resolve_style, bind, gets, lift, modify, put, ret.
  destruct (dict_mem h (color_cache s)); cbn [negb]; [reflexivity|].
  destruct (style_count s >=? MAX_STYLES cls); [|reflexivity].
  destruct (warning_shown s); reflexivity.
Qed.

(** Lines 178-192 in a tracked state. *)
Lemma resolve_style_tracks cls qs s q :
  0 < MAX_STYLES cls -> tracks cls qs s -> byte_rgb q ->
  exists c s',
    resolve_style cls (hex_color_of q) s = (Ok (hex_color_of c), s')
    /\ tracks cls (qs ++ [q]) s'
    /\ resolved (capacity cls) qs q c
    /\ In c (admitted (capacity cls) (qs ++ [q]))
    /\ queue s' =
       queue s ++ (if must_fall_back (capacity cls) qs q && negb (warning_shown s)
                   then [Warning] else [])
    /\ cells s' = cells s /\ processed s' = processed s /\ saved s' = saved s.
Proof.
  intros Hmax [Hbytes Hcache Hcount Hshown Hwarn] Hq.
  pose proof (admitted_bytes (capacity cls) qs Hbytes) as Hadm.
  assert (Hbytes' : Forall byte_rgb (qs ++ [q])).
  { apply Forall_app. split; [assumption | repeat constructor; assumption]. }
  rewrite resolve_style_eq. unfold resolved, must_fall_back.
  rewrite Hcache, (dict_mem_cache_seen _ q Hadm Hq), Hcount.
  rewrite (geb_capacity cls) by lia.
  pose proof (admitted_snoc (capacity cls) qs q) as Hsnoc.
  pose proof (overflowed_snoc (capacity cls) qs q) as Hover.
  unfold must_fall_back in *.
  destruct (seen q (admitted (capacity cls) qs)) eqn:Eseen; cbn [negb andb] in *.
  - (* the key is cached *)
    rewrite orb_false_r in Hover. rewrite Hsnoc, Eseen.
    exists q, s. split; [reflexivity|]. split.
    { constructor; rewrite ?Hsnoc, ?Hover; assumption. }
    split; [reflexivity|]. split; [apply seen_in; assumption|].
    rewrite app_nil_r. auto.
  - destruct (capacity cls <=? List.length (admitted (capacity cls) qs))%nat eqn:Efull;
      cbn [negb andb] in *.
    + (* the cache is full: nearest colour *)
      apply Nat.leb_le in Efull.
      assert (El : (List.length (admitted (capacity cls) qs) <? capacity cls)%nat = false)
        by (apply Nat.ltb_ge; assumption).
      rewrite El in Hsnoc. rewrite orb_true_r in Hover.
      assert (Hne : admitted (capacity cls) qs <> []).
      { intros E. rewrite E in Efull. cbn in Efull. unfold capacity in Efull. lia. }
      destruct (nearest_key (admitted (capacity cls) qs) q Hne Hadm Hq)
        as (m & Hmin & Hfirst).
      rewrite Hsnoc, Eseen, Hmin.
      exists m. eexists. split; [reflexivity|].
      destruct (warning_shown s) eqn:Es; cbn [negb].
      * split.
        { constructor; rewrite ?Hsnoc, ?Hover, ?Es; auto. }
        split; [assumption|]. split; [apply (first_min_in _ _ _ Hfirst)|].
        rewrite app_nil_r. auto.
      * split.
        { constructor; state_simpl; rewrite ?Hsnoc, ?Hover; auto.
          rewrite warnings_app, Hwarn. reflexivity. }
        split; [assumption|]. split; [apply (first_min_in _ _ _ Hfirst)|].
        state_simpl. auto.
    + (* room left: a new style *)
      apply Nat.leb_gt in Efull.
      assert (El : (List.length (admitted (capacity cls) qs) <? capacity cls)%nat = true)
        by (apply Nat.ltb_lt; assumption).
      rewrite El in Hsnoc. rewrite orb_false_r in Hover.
      assert (Hin : seen q (admitted (capacity cls) qs ++ [q]) = true)
        by (apply seen_in, in_or_app; right; left; reflexivity).
      rewrite Hsnoc, Hin.
      exists q. eexists. split; [reflexivity|]. split.
      { constructor; state_simpl; rewrite ?Hsnoc, ?Hover; auto.
        - rewrite cache_of_colors_app. apply dict_set_absent.
          rewrite (dict_mem_cache_seen _ q Hadm Hq). assumption.
        - rewrite length_app. cbn [List.length]. lia. }
      split; [reflexivity|]. split; [apply seen_in; assumption|].
      state_simpl. rewrite app_nil_r. auto.
Qed.

(** Lines 172-200 when nothing raises. *)
Lemma process_pixel_eq cls bits img total x y s q k s1 fill :
  pixel_color bits img x y = Ok q ->
  resolve_style cls (hex_color_of q) s = (Ok k, s1) ->
  dict_get (color_cache s1) k = Ok fill ->
  0 <= x -> 0 <= y -> total / 200 <> 0 ->
  process_pixel cls bits img total x y s =
  (Ok tt,
   set_queue (queue s1 ++ progress_at total (processed s1 + 1))
     (set_processed (processed s1 + 1)
        (set_cells (cells s1 ++ [(y + 1, x + 1, fill)]) s1))).
Proof.
  intros Hq Hres Hget Hx Hy Hstep.
  unfold pixel_color in Hq.
  unfold process_pixel, assign_cell, py_mod, progress_at, bind, lift, gets, modify,
    put, ret.
  destruct (pixel_access img x y) as [px|e]; cbn [rbind] in Hq; [|discriminate].
  rewrite Hq, Hres, Hget.
  assert (E1 : (y + 1 <? 1) || (x + 1 <? 1) = false).
  { apply orb_false_iff. split; apply Z.ltb_ge; lia. }
  rewrite E1. state_simpl.
  apply Z.eqb_neq in Hstep. rewrite Hstep.
  destruct ((processed s1 + 1) mod (total / 200) =? 0).
  - reflexivity.
  - rewrite app_nil_r. destruct s1; reflexivity.
Qed.

Lemma visit_tracks cls bits img total p s qs :
  0 < MAX_STYLES cls -> bits <= 8 -> total / 200 <> 0 ->
  in_image img p -> tracks cls qs s ->
  exists c s',
    visit cls bits img total p s = (Ok tt, s')
    /\ tracks cls (qs ++ [quantized bits img p]) s'
    /\ resolved (capacity cls) qs (quantized bits img p) c
    /\ cells s' = cells s ++ [(fst p + 1, snd p + 1, solid_fill (hex_color_of c))]
    /\ processed s' = processed s + 1
    /\ queue s' =
       queue s
       ++ (if must_fall_back (capacity cls) qs (quantized bits img p)
              && negb (warning_shown s)
           then [Warning] else [])
       ++ progress_at total (processed s + 1)
    /\ saved s' = saved s.
Proof.
  intros Hmax Hbits Hstep Hp Htr.
  destruct (pixel_color_in_image bits img p Hbits Hp) as [Hq Hbyte].
  destruct (resolve_style_tracks cls qs s _ Hmax Htr Hbyte)
    as (c & s1 & Hres & Htr1 & Hc & Hin & Hqueue & Hcells & Hproc & Hsaved).
  pose proof (dict_get_cache_of_colors _ c Hin) as Hget.
  rewrite <- (tr_cache _ _ _ Htr1) in Hget.
  destruct Hp as [[Hx _] [Hy _]].
  exists c. eexists. split.
  { unfold visit. apply (process_pixel_eq _ _ _ _ _ _ _ _ _ _ _ Hq Hres Hget Hx Hy Hstep). }
  state_simpl. split.
  - destruct Htr1 as [H1 H2 H3 H4 H5]. constructor; state_simpl; auto.
    rewrite warnings_app, H5. unfold progress_at, warnings.
    destruct (_ =? 0); cbn; lia.
  - rewrite Hcells, Hproc, Hqueue, Hsaved, <- app_assoc. auto.
Qed.

(* ================================================================== *)
(** ** The loop of a well-formed run *)

Lemma in_checkpoints total done n m :
  In m (checkpoints total done n) <->
  exists k, done < k <= done + Z.of_nat n
            /\ k mod (total / 200) = 0 /\ m = Progress k total.
Proof.
  revert done. induction n as [|n IH]; intros done.
  - cbn. split; [intros [] | intros (k & Hk & _); lia].
  - cbn [checkpoints]. rewrite in_app_iff, IH. unfold progress_at. split.
    + intros [H | (k & Hk & Hmod & ->)].
      * destruct (_ =? 0) eqn:E; [|destruct H].
        destruct H as [<- | []]. apply Z.eqb_eq in E.
        exists (done + 1). split; [lia | auto].
      * exists k. split; [lia | auto].
    + intros (k & Hk & Hmod & ->).
      destruct (Z.eq_dec k (done + 1)) as [-> | Hne].
      * left. apply Z.eqb_eq in Hmod. rewrite Hmod. left. reflexivity.
      * right. exists k. split; [lia | auto].
Qed.

Lemma filter_progress_at total n :
  filter is_progress (progress_at total n) = progress_at total n.
Proof. unfold progress_at. destruct (_ =? 0); reflexivity. Qed.

Lemma for_each_tracks cls bits img total l :
  0 < MAX_STYLES cls -> bits <= 8 -> total / 200 <> 0 ->
  Forall (in_image img) l ->
  forall s qs,
    tracks cls qs s ->
    exists s',
      for_each l (visit cls bits img total) s = (Ok tt, s')
      /\ tracks cls (qs ++ map (quantized bits img) l) s'
      /\ map fst (cells s') =
         map fst (cells s) ++ map (fun p => (fst p + 1, snd p + 1)) l
      /\ processed s' = processed s + Z.of_nat (List.length l)
      /\ filter is_progress (queue s') =
         filter is_progress (queue s)
         ++ checkpoints total (processed s) (List.length l)
      /\ saved s' = saved s.
Proof.
  intros Hmax Hbits Hstep Hl. induction Hl as [|p l Hp Hl IH]; intros s qs Htr.
  - exists s. cbn. rewrite !app_nil_r, Z.add_0_r.
    split; [reflexivity|]. split; [assumption|]. auto.
  - destruct (visit_tracks cls bits img total p s qs Hmax Hbits Hstep Hp Htr)
      as (c & s1 & Hvisit & Htr1 & _ & Hcells & Hproc & Hqueue & Hsaved).
    destruct (IH s1 _ Htr1) as (s' & Hloop & Htr' & Hcells' & Hproc' & Hqueue' & Hsaved').
    exists s'. cbn [for_each]. unfold bind. rewrite Hvisit.
    split; [assumption|]. split.
    { cbn [map]. rewrite <- app_assoc in Htr'. exact Htr'. }
    split.
    { rewrite Hcells', Hcells, map_app, <- app_assoc. reflexivity. }
    split.
    { rewrite Hproc', Hproc. cbn [List.length]. lia. }
    split; [|congruence].
    rewrite Hqueue', Hqueue, Hproc, !filter_app, filter_progress_at. cbn [checkpoints].
    rewrite <- !app_assoc. f_equal.
    destruct (_ && _); reflexivity.
Qed.

(* ================================================================== *)
(** ** Whole runs *)

Lemma visit_advisory cls bits img total p s :
  forallb advisory (queue s) = true ->
  forallb advisory (queue (snd (visit cls bits img total p s))) = true.
Proof.
  intros Hs. destruct (visit_queue cls bits img total p s) as (ps & Hps & ->).
  rewrite !forallb_app, Hs. cbn [andb]. apply andb_true_iff. split.
  - destruct (_ && _); reflexivity.
  - rewrite forallb_forall in *. intros m Hm. unfold advisory.
    rewrite (Hps m Hm). reflexivity.
Qed.

Lemma for_each_advisory cls bits img total l s :
  forallb advisory (queue s) = true ->
  forallb advisory (queue (snd (for_each l (visit cls bits img total) s))) = true.
Proof.
  revert s. induction l as [|p l IH]; intros s Hs; [assumption|].
  cbn [for_each]. unfold bind.
  pose proof (visit_advisory cls bits img total p s Hs) as Hs'.
  destruct (visit cls bits img total p s) as [[[]|e] s1]; cbn [snd] in *; auto.
Qed.

Lemma for_each_saved cls bits img total l s :
  saved (snd (for_each l (visit cls bits img total) s)) = saved s.
Proof.
  revert s. induction l as [|p l IH]; intros s; [reflexivity|].
  cbn [for_each]. unfold bind.
  pose proof (visit_saved cls bits img total p s) as Hs.
  destruct (visit cls bits img total p s) as [[[]|e] s1]; cbn [snd] in *;
    [rewrite IH|]; assumption.
Qed.

(** A run stops with a single error message before the loop, or runs the
    loop over the opened image and finishes. *)
Lemma run_worker_cases cls req :
  (exists t, run_worker cls req = set_queue [Error t] initial_state)
  \/ (exists img,
        opened req = Ok img
        /\ run_worker cls req =
           finish req (pixel_loop cls (quantization_bits req) img
                         (img_width img * img_height img) initial_state)).
Proof.
  remember (run_worker cls req) as final eqn:E.
  unfold run_worker, conversion_body in E.
  destruct (negb (nonempty (image_path req) && nonempty (output_dir req)));
    [left; eexists; exact E|].
  destruct (negb (path_exists req)); [left; eexists; exact E|].
  unfold bind at 1 in E. unfold lift at 1 in E.
  destruct (opened req) as [img|e]; [|left; eexists; exact E].
  cbv beta iota zeta in E.
  destruct (validate_size cls (img_width img) (img_height img)) as [[] msg];
    cbn [negb] in E; [|left; eexists; exact E].
  unfold set_cell_sizes in E.
  destruct (18278 <? img_width img); [left; eexists; exact E|].
  right. exists img. split; [reflexivity|]. rewrite E.
  unfold finish, bind, ret, save_workbook, gets, put, modify, lift, output_of.
  destruct (pixel_loop cls (quantization_bits req) img
              (img_width img * img_height img) initial_state) as [[[]|e] st];
    [|reflexivity].
  destruct (save_error req); reflexivity.
Qed.

(** An accepted request reaches the loop. *)
Lemma run_worker_accepted cls req img :
  accepted cls req img ->
  run_worker cls req =
  finish req (pixel_loop cls (quantization_bits req) img
                (img_width img * img_height img) initial_state).
Proof.
  intros [Hip Hod Hex Hop [Hw1 Hw2] [Hh1 Hh2] Hcol].
  unfold run_worker, conversion_body.
  destruct (image_path req) eqn:E1; [congruence|].
  destruct (output_dir req) eqn:E2; [congruence|].
  cbn [nonempty andb negb]. rewrite Hex. cbn [negb].
  unfold bind at 1. unfold lift at 1. rewrite Hop.
  unfold validate_size. destruct (MAX_DIMENSIONS cls) as [max_rows max_cols].
  cbn [fst snd] in *.
  assert (Eh : (img_height img >? max_rows) = false)
    by (rewrite Z.gtb_ltb; apply Z.ltb_ge; lia).
  assert (Ew : (img_width img >? max_cols) = false)
    by (rewrite Z.gtb_ltb; apply Z.ltb_ge; lia).
  rewrite Eh, Ew. cbn [negb].
  unfold set_cell_sizes.
  assert (Ec : (18278 <? img_width img) = false) by (apply Z.ltb_ge; lia).
  rewrite Ec. unfold finish, bind, ret, save_workbook, gets, put, modify, lift, output_of.
  rewrite ?E1, ?E2.
  destruct (pixel_loop cls (quantization_bits req) img
              (img_width img * img_height img) initial_state) as [[[]|e] st];
    [|reflexivity].
  destruct (save_error req); reflexivity.
Qed.

Lemma checkpoint_step total : 200 <= total -> total / 200 <> 0.
Proof.
  intros H. pose proof (Z.div_str_pos total 200 ltac:(lia)). lia.
Qed.

Lemma scan_order_all_in_image img : Forall (in_image img) (scan_order img).
Proof. apply Forall_forall. intros p Hp. apply scan_order_in_image. assumption. Qed.

(** A well-formed run over an image of at least 200 pixels: every pixel
    is processed, the file is saved and the last message is the success. *)
Lemma run_worker_complete cls req img :
  accepted cls req img ->
  0 < MAX_STYLES cls -> quantization_bits req <= 8 ->
  200 <= img_width img * img_height img ->
  save_error req = None ->
  let s := run_worker cls req in
  let total := img_width img * img_height img in
  let colors := image_colors (quantization_bits req) img in
  exists msgs,
    queue s = msgs ++ [Success (output_of req) (style_count s)]
    /\ forallb advisory msgs = true
    /\ filter is_progress msgs = checkpoints total 0 (List.length (scan_order img))
    /\ warnings msgs = (if overflowed (capacity cls) colors then 1 else 0)%nat
    /\ color_cache s = cache_of_colors (admitted (capacity cls) colors)
    /\ style_count s = Z.of_nat (List.length (admitted (capacity cls) colors))
    /\ map fst (cells s) = map (fun p => (fst p + 1, snd p + 1)) (scan_order img)
    /\ processed s = total
    /\ saved s = Some (output_of req).
Proof.
  intros Hacc Hmax Hbits Htotal Hsave. cbv zeta.
  rewrite (run_worker_accepted cls req img Hacc).
  rewrite pixel_loop_scan_order.
  destruct (for_each_tracks cls (quantization_bits req) img _ (scan_order img)
              Hmax Hbits (checkpoint_step _ Htotal) (scan_order_all_in_image img)
              initial_state [] (tracks_initial cls))
    as (s & Hloop & Htr & Hcells & Hproc & Hprog & Hsaved).
  pose proof (for_each_advisory cls (quantization_bits req) img
                (img_width img * img_height img) (scan_order img) initial_state
                eq_refl) as Hadv.
  rewrite Hloop in *. cbn [snd] in Hadv. unfold finish. rewrite Hsave.
  destruct Htr as [_ Hcache Hcount Hshown Hwarn]. cbn [app] in *.
  exists (queue s). state_simpl. fold (image_colors (quantization_bits req) img) in *.
  pose proof (acc_width _ _ _ Hacc). pose proof (acc_height _ _ _ Hacc).
  repeat split; try assumption.
  - rewrite Hwarn, Hshown. reflexivity.
  - rewrite Hproc. cbn [processed initial_state].
    rewrite scan_order_length by lia. lia.
Qed.

(* ------------------------------------------------------------------ *)

Lemma for_each_app_ok {A} (l1 l2 : list A) (body : A -> W unit) s s' :
  for_each (l1 ++ l2) body s = (Ok tt, s') ->
  exists s1, for_each l1 body s = (Ok tt, s1) /\ for_each l2 body s1 = (Ok tt, s').
Proof.
  rewrite for_each_app. destruct (for_each l1 body s) as [[[]|e] s1]; [|discriminate].
  eauto.
Qed.

Lemma for_each_single {A} (a : A) (body : A -> W unit) s :
  for_each [a] body s = body a s.
Proof.
  cbn [for_each]. unfold bind, ret. destruct (body a s) as [[[]|e] s1]; reflexivity.
Qed.

(** The flag is set exactly when an earlier pixel fell back. *)
Lemma warning_shown_iff_fell_back cls bits img total l :
  forall s,
    for_each l (visit cls bits img total) initial_state = (Ok tt, s) ->
    (warning_shown s = true <->
     exists l1 p l2,
       l = l1 ++ p :: l2
       /\ falls_back cls bits img
            (snd (for_each l1 (visit cls bits img total) initial_state)) p = true).
Proof.
  induction l as [|p l IH] using rev_ind; intros s Hs.
  - cbn in Hs. injection Hs as <-. cbn. split; [discriminate|].
    intros (l1 & p & l2 & E & _). destruct l1; discriminate.
  - apply for_each_app_ok in Hs. destruct Hs as (s1 & H1 & Hp).
    rewrite for_each_single in Hp.
    pose proof (visit_warning_shown cls bits img total p s1) as Hshown.
    rewrite Hp in Hshown. cbn [snd] in Hshown. rewrite Hshown, orb_true_iff.
    rewrite (IH s1 H1). split.
    + intros [(l1 & p1 & l2 & -> & Hf) | Hf].
      * exists l1, p1, (l2 ++ [p]). rewrite <- app_assoc. auto.
      * exists l, p, []. rewrite H1. auto.
    + intros (l1 & p1 & l2 & E & Hf).
      destruct l2 as [|p2 l2] using rev_ind.
      * apply app_inj_tail in E. destruct E as [-> ->]. right.
        rewrite H1 in Hf. exact Hf.
      * clear IHl2. rewrite app_comm_cons, app_assoc in E.
        apply app_inj_tail in E. destruct E as [-> ->]. left. eauto.
Qed.

Lemma finish_counted cls req loop :
  counted cls (snd loop) -> counted cls (finish req loop).
Proof.
  destruct loop as [[[]|e] s]; cbn [snd finish]; intros (H1 & H2 & H3);
    [destruct (save_error req)|];
    (split; [|split]); state_simpl; try assumption;
    rewrite warnings_app, H3; cbn; lia.
Qed.

Lemma run_worker_counted cls req :
  0 <= MAX_STYLES cls -> counted cls (run_worker cls req).
Proof.
  intros Hmax. destruct (run_worker_cases cls req) as [(t & ->) | (img & _ & ->)].
  - repeat split; assumption.
  - apply finish_counted. rewrite pixel_loop_scan_order.
    apply for_each_counted, counted_initial. assumption.
Qed.

(* ------------------------------------------------------------------ *)
(** *** Images of fewer than 200 pixels *)

Lemma range_head n : 0 < n -> exists rest, range n = 0 :: rest.
Proof.
  intros Hn. unfold range. destruct (Z.to_nat n) as [|k] eqn:E; [lia|].
  cbn [seq map]. eauto.
Qed.

Lemma scan_order_head img :
  0 < img_width img -> 0 < img_height img ->
  exists rest, scan_order img = (0, 0) :: rest.
Proof.
  intros Hw Hh. unfold scan_order.
  destruct (range_head _ Hw) as (xs & ->). destruct (range_head _ Hh) as (ys & ->).
  cbn [flat_map map app]. eauto.
Qed.

(** Lines 172-200 when the step of line 199 is zero. *)
Lemma process_pixel_zero_step cls bits img total x y s q k s1 fill :
  pixel_color bits img x y = Ok q ->
  resolve_style cls (hex_color_of q) s = (Ok k, s1) ->
  dict_get (color_cache s1) k = Ok fill ->
  0 <= x -> 0 <= y -> total / 200 = 0 ->
  process_pixel cls bits img total x y s =
  (Raise ZeroDivisionError,
   set_processed (processed s1 + 1)
     (set_cells (cells s1 ++ [(y + 1, x + 1, fill)]) s1)).
Proof.
  intros Hq Hres Hget Hx Hy Hstep.
  unfold pixel_color in Hq.
  unfold process_pixel, assign_cell, py_mod, bind, lift, gets, modify, put, ret.
  destruct (pixel_access img x y) as [px|e]; cbn [rbind] in Hq; [|discriminate].
  rewrite Hq, Hres, Hget.
  assert (E1 : (y + 1 <? 1) || (x + 1 <? 1) = false).
  { apply orb_false_iff. split; apply Z.ltb_ge; lia. }
  rewrite E1, Hstep. reflexivity.
Qed.

Lemma pixel_loop_small cls bits img :
  0 < MAX_STYLES cls ->
  0 < img_width img -> 0 < img_height img ->
  img_width img * img_height img < 200 ->
  pixel_loop cls bits img (img_width img * img_height img) initial_state =
  if bits <=? 8
  then (Raise ZeroDivisionError, after_first_pixel (quantized bits img (0, 0)))
  else (Raise (ValueError "negative shift count"), initial_state).
Proof.
  intros Hmax Hw Hh Htotal.
  rewrite pixel_loop_scan_order.
  destruct (scan_order_head img Hw Hh) as (rest & ->).
  cbn [for_each]. unfold bind.
  assert (Hp : in_image img (0, 0)) by (split; cbn [fst snd]; lia).
  destruct (bits <=? 8) eqn:Eb.
  - apply Z.leb_le in Eb.
    destruct (pixel_color_in_image bits img (0, 0) Eb Hp) as [Hq _].
    set (q := quantized bits img (0, 0)) in *.
    assert (Hres : resolve_style cls (hex_color_of q) initial_state =
                   (Ok (hex_color_of q),
                    set_style_count 1
                      (set_color_cache [(hex_color_of q, solid_fill (hex_color_of q))]
                         initial_state))).
    { rewrite resolve_style_eq. cbn [color_cache style_count initial_state].
      unfold dict_mem, dict_get.
      assert (E : (0 >=? MAX_STYLES cls) = false)
        by (rewrite Z.geb_leb; apply Z.leb_gt; assumption).
      rewrite E. reflexivity. }
    assert (Hget : dict_get [(hex_color_of q, solid_fill (hex_color_of q))]
                     (hex_color_of q) = Ok (solid_fill (hex_color_of q))).
    { unfold dict_get. rewrite String.eqb_refl. reflexivity. }
    assert (Hstep : img_width img * img_height img / 200 = 0)
      by (apply Z.div_small; nia).
    unfold visit. cbn [fst snd] in *.
    rewrite (process_pixel_zero_step _ _ _ _ _ _ _ _ _ _ _ Hq Hres Hget
               (Z.le_refl 0) (Z.le_refl 0) Hstep).
    reflexivity.
  - apply Z.leb_gt in Eb.
    unfold visit, process_pixel, bind, lift. cbn [fst snd].
    destruct (pixel_access_in_image img (0, 0) Hp) as (c & Hc & _).
    cbn [fst snd] in Hc. rewrite Hc.
    rewrite quantize_color_too_many_bits by assumption. reflexivity.
Qed.

(** C10.  An image of fewer than 200 pixels never yields a success: the
    run ends with one error message and no saved file, and when the
    request is otherwise in order that error is the division by zero of
    the first progress checkpoint, raised after the first pixel. *)
Theorem small_image_never_succeeds (req : request) (img : image) :
  opened req = Ok img ->
  0 < img_width img -> 0 < img_height img ->
  img_width img * img_height img < 200 ->
  let s := conversion_worker req in
  (forall path count, ~ In (Success path count) (queue s))
  /\ saved s = None
  /\ (exists t, queue s = [Error t])
  /\ (image_path req <> "" -> output_dir req <> "" -> path_exists req = true ->
      quantization_bits req <= 8 ->
      queue s = [Error (ExceptionText ZeroDivisionError)]
      /\ processed s = 1
      /\ img_width img * img_height img / 200 = 0
      /\ List.length (cells s) = 1%nat).
Proof.
  intros Hop Hw Hh Htotal s.
  assert (Hmax : 0 < MAX_STYLES ExcelSizeValidator) by reflexivity.
  pose proof (pixel_loop_small ExcelSizeValidator (quantization_bits req) img
                Hmax Hw Hh Htotal) as Hloop.
  assert (Hs : exists t, s = set_queue [Error t] initial_state
                         \/ (quantization_bits req <= 8
                             /\ t = ExceptionText ZeroDivisionError
                             /\ s = set_queue [Error t]
                                      (after_first_pixel
                                         (quantized (quantization_bits req) img (0, 0))))).
  { subst s. unfold conversion_worker.
    destruct (run_worker_cases ExcelSizeValidator req) as [(t & ->) | (img' & Hop' & ->)].
    - exists t. left. reflexivity.
    - assert (img' = img) by congruence. subst img'. rewrite Hloop.
      destruct (quantization_bits req <=? 8) eqn:Eb.
      + eexists. right. apply Z.leb_le in Eb. repeat split. assumption.
      + eexists. left. reflexivity. }
  split; [|split; [|split]].
  - destruct Hs as (t & [-> | (_ & _ & ->)]); cbn; intros path count [H | []];
      discriminate.
  - destruct Hs as (t & [-> | (_ & _ & ->)]); reflexivity.
  - destruct Hs as (t & [-> | (_ & _ & ->)]); exists t; reflexivity.
  - intros Hip Hod Hex Hbits.
    assert (Hacc : accepted ExcelSizeValidator req img).
    { constructor; cbn [ExcelSizeValidator MAX_DIMENSIONS fst snd]; try assumption; nia. }
    subst s. unfold conversion_worker.
    rewrite (run_worker_accepted _ _ _ Hacc), Hloop.
    apply Z.leb_le in Hbits. rewrite Hbits. cbn.
    rewrite (Z.div_small (img_width img * img_height img) 200) by nia.
    auto.
Qed.

Lemma small_image_never_succeeds_witness :
  saved (conversion_worker (request_for red_pixel 5)) = None.
Proof.
  exact (proj1 (proj2 (small_image_never_succeeds (request_for red_pixel 5) red_pixel
                         eq_refl ltac:(cbn; lia) ltac:(cbn; lia) ltac:(cbn; lia)))).
Defined.

(** C1.  On the one-pixel image of pure red at 5 bits the pixel is
    quantized to (248,0,0) and gets one new style, but the run then stops
    at the first progress checkpoint: its only message is the error of the
    division by zero, none is a success, and nothing is saved. *)
Theorem single_red_pixel_run :
  let s := conversion_worker (request_for red_pixel 5) in
  quantize_color (255, 0, 0) 5 = Ok (248, 0, 0)
  /\ color_cache s = [("FFF80000", solid_fill "FFF80000")]
  /\ style_count s = 1
  /\ queue s = [Error (ExceptionText ZeroDivisionError)]
  /\ saved s = None.
Proof. vm_compute. repeat split. Qed.

(** C8.  On the two-by-two image the walker assigns the cell of the first
    pixel only, (row 1, column 1), and the run ends with the error of the
    division by zero. *)
Theorem two_by_two_run :
  let s := conversion_worker (request_for four_pixels 5) in
  scan_order four_pixels = [(0, 0); (0, 1); (1, 0); (1, 1)]
  /\ map fst (cells s) = [(1, 1)]
  /\ queue s = [Error (ExceptionText ZeroDivisionError)].
Proof. vm_compute. repeat split. Qed.

(** C9.  On an image of 19 x 10 = 190 pixels the step of the checkpoint
    is 190 // 200 = 0: no progress message is emitted and the run ends
    with the error of the division by zero after one pixel. *)
Theorem no_progress_below_200_pixels :
  let s := conversion_worker (request_for (ramp 19 10) 5) in
  img_width (ramp 19 10) * img_height (ramp 19 10) / 200 = 0
  /\ filter is_progress (queue s) = []
  /\ processed s = 1
  /\ queue s = [Error (ExceptionText ZeroDivisionError)].
Proof. vm_compute. repeat split. Qed.

(** From 200 pixels on, a well-formed run assigns one cell per pixel in
    row-major order, the pixel (x, y) to row y + 1 and column x + 1, and
    emits a progress message exactly at the multiples of
    [total_pixels // 200]. *)
Lemma cells_and_progress_from_200_pixels cls req img :
  accepted cls req img ->
  0 < MAX_STYLES cls -> quantization_bits req <= 8 ->
  200 <= img_width img * img_height img ->
  save_error req = None ->
  let s := run_worker cls req in
  let total := img_width img * img_height img in
  map fst (cells s) = map (fun p => (fst p + 1, snd p + 1)) (scan_order img)
  /\ Z.of_nat (List.length (cells s)) = total
  /\ (forall m, In m (filter is_progress (queue s)) <->
                exists k, 0 < k <= total /\ k mod (total / 200) = 0
                          /\ m = Progress k total).
Proof.
  intros Hacc Hmax Hbits Htotal Hsave.
  destruct (run_worker_complete cls req img Hacc Hmax Hbits Htotal Hsave)
    as (msgs & Hq & _ & Hprog & _ & _ & _ & Hcells & _ & _).
  cbv zeta. pose proof (acc_width _ _ _ Hacc). pose proof (acc_height _ _ _ Hacc).
  split; [assumption|]. split.
  - rewrite <- (length_map fst), Hcells, length_map.
    apply scan_order_length; lia.
  - intros m. rewrite Hq, filter_app, Hprog. cbn [filter is_progress].
    rewrite app_nil_r, in_checkpoints, scan_order_length by lia.
    reflexivity.
Qed.

(* ================================================================== *)
(** ** The style cache *)

(** C5.  The loop of the worker visits the pixels of [scan_order] one
    after the other.  Let [s] be the state after any number of pixels
    and [s'] the state one pixel later.  The cache of [s] holds at most
    [MAX_STYLES] entries; the pixel leaves it unchanged or appends exactly
    one entry; whatever follows only appends to it; the cache a run ends
    with is within the limit as well.  When the loop is well formed and the
    pixels processed so far have at most [MAX_STYLES] distinct quantized
    colours, the cache holds exactly one entry per distinct colour, in the
    order of first occurrence, and no pixel fell back. *)
Theorem style_cache_bounded_monotone
  (cls : validator_class) (bits : Z) (img : image) (total : Z)
  (l : list (Z * Z)) (p : Z * Z) :
  0 <= MAX_STYLES cls ->
  let run l := for_each l (visit cls bits img total) initial_state in
  let s := snd (run l) in
  let s' := snd (visit cls bits img total p s) in
  (forall st, pixel_loop cls bits img total st =
              for_each (scan_order img) (visit cls bits img total) st)
  /\ Z.of_nat (List.length (color_cache s)) <= MAX_STYLES cls
  /\ (color_cache s' = color_cache s
      \/ exists k, color_cache s' = color_cache s ++ [(k, solid_fill k)])
  /\ (forall l', exists added,
        color_cache (snd (for_each l' (visit cls bits img total) s)) =
        color_cache s ++ added)
  /\ (forall req,
        Z.of_nat (List.length (color_cache (run_worker cls req))) <= MAX_STYLES cls)
  /\ (0 < MAX_STYLES cls -> bits <= 8 -> total / 200 <> 0 ->
      Forall (in_image img) l ->
      let colors := map (quantized bits img) l in
      (List.length (distinct colors) <= capacity cls)%nat ->
      run l = (Ok tt, s)
      /\ color_cache s = cache_of_colors (distinct colors)
      /\ List.length (color_cache s) = List.length (distinct colors)
      /\ warning_shown s = false
      /\ warnings (queue s) = 0%nat
      /\ (forall l1 p1 l2, l = l1 ++ p1 :: l2 ->
            falls_back cls bits img (snd (run l1)) p1 = false)).
Proof.
  intros Hmax run s s'.
  pose proof (for_each_counted cls bits img total l initial_state
                (counted_initial cls Hmax)) as (Hc & Hm & _).
  fold (run l) in Hc, Hm. fold s in Hc, Hm.
  split; [intros st; apply pixel_loop_scan_order|].
  split; [lia|]. split.
  { pose proof (visit_cache cls bits img total p s) as H. cbv zeta in H. fold s' in H.
    destruct H as [[H _] | (k & _ & _ & H & _)]; eauto. }
  split; [intros l'; apply for_each_cache_grows|]. split.
  { intros req. destruct (run_worker_counted cls req Hmax) as (Hc' & Hm' & _). lia. }
  intros Hpos Hbits Hstep Hl colors Hn.
  destruct (for_each_tracks cls bits img total l Hpos Hbits Hstep Hl
              initial_state [] (tracks_initial cls))
    as (s0 & Hrun & [_ Hcache Hcount Hshown Hwarn] & _).
  cbn [app] in *. fold colors in Hcache, Hcount, Hshown.
  assert (Es : s = s0) by (subst s run; cbv beta; rewrite Hrun; reflexivity).
  assert (Hover : overflowed (capacity cls) colors = false)
    by (apply Nat.ltb_ge; assumption).
  rewrite (overflowed_length _ _ Hover) in Hcache, Hcount.
  rewrite Hover in Hshown. rewrite Hshown in Hwarn.
  rewrite Es. split; [exact Hrun|]. split; [assumption|]. split.
  { rewrite Hcache. apply cache_of_colors_length. }
  split; [assumption|]. split; [assumption|].
  intros l1 p1 l2 El.
  destruct (falls_back cls bits img (snd (run l1)) p1) eqn:Ef; [|reflexivity].
  assert (Hs : warning_shown s0 = true).
  { apply (warning_shown_iff_fell_back cls bits img total l s0 Hrun).
    exists l1, p1, l2. auto. }
  congruence.
Qed.

Lemma style_cache_bounded_monotone_witness :
  let img := ramp 20 10 in
  let s := snd (for_each (scan_order img) (visit ExcelSizeValidator 5 img 200)
                  initial_state) in
  Z.of_nat (List.length (color_cache s)) <= 64000 /\ warning_shown s = false.
Proof.
  intros img s.
  pose proof (style_cache_bounded_monotone ExcelSizeValidator 5 img 200
                (scan_order img) (0, 0) ltac:(cbn; lia))
    as (_ & Hbound & _ & _ & _ & Hn).
  split; [exact Hbound|].
  refine (proj1 (proj2 (proj2 (proj2
            (Hn ltac:(cbn; lia) ltac:(lia) ltac:(vm_compute; discriminate)
                (scan_order_all_in_image img) _))))).
  apply Nat.leb_le. vm_compute. reflexivity.
Defined.

(** C2.  In a cache that holds [MAX_STYLES] colours, resolving a colour
    that is not a key inserts nothing: the result is the key of the colour
    of the cache at the least squared distance from the requested one, the
    first such in insertion order, and the cell receives the fill stored
    under that key.  A loop that has met more than [MAX_STYLES] distinct
    colours ends with exactly [MAX_STYLES] entries. *)
Theorem saturated_cache_nearest_color (cls : validator_class) :
  0 < MAX_STYLES cls ->
  (forall s cs q,
      color_cache s = cache_of_colors cs -> Forall byte_rgb cs ->
      style_count s = Z.of_nat (List.length (color_cache s)) ->
      Z.of_nat (List.length (color_cache s)) = MAX_STYLES cls ->
      byte_rgb q -> dict_mem (hex_color_of q) (color_cache s) = false ->
      exists c s',
        resolve_style cls (hex_color_of q) s = (Ok (hex_color_of c), s')
        /\ color_cache s' = color_cache s
        /\ style_count s' = style_count s
        /\ first_min (fun c' => sq_distance c' q) cs c
        /\ color_distance (hex_color_of c) (hex_color_of q) = Ok (sq_distance c q)
        /\ dict_get (color_cache s') (hex_color_of c) = Ok (solid_fill (hex_color_of c)))
  /\ (forall bits img total l,
        bits <= 8 -> total / 200 <> 0 -> Forall (in_image img) l ->
        (capacity cls < List.length (distinct (map (quantized bits img) l)))%nat ->
        exists s,
          for_each l (visit cls bits img total) initial_state = (Ok tt, s)
          /\ Z.of_nat (List.length (color_cache s)) = MAX_STYLES cls
          /\ style_count s = MAX_STYLES cls).
Proof.
  intros Hmax. split.
  - intros s cs q Hcache Hcs Hcount Hfull Hq Hmem.
    assert (Hne : cs <> []).
    { intros ->. rewrite Hcache in Hfull. cbn in Hfull. lia. }
    destruct (nearest_key cs q Hne Hcs Hq) as (c & Hmin & Hfirst).
    pose proof (first_min_in _ _ _ Hfirst) as Hin.
    assert (Hc : byte_rgb c) by (rewrite Forall_forall in Hcs; auto).
    rewrite resolve_style_eq, Hmem.
    assert (E : (style_count s >=? MAX_STYLES cls) = true)
      by (rewrite Z.geb_leb; apply Z.leb_le; lia).
    rewrite E, Hcache, Hmin.
    exists c. eexists. split; [reflexivity|].
    assert (Hget : dict_get (cache_of_colors cs) (hex_color_of c) =
                   Ok (solid_fill (hex_color_of c)))
      by (apply dict_get_cache_of_colors; assumption).
    destruct (warning_shown s); state_simpl; rewrite ?Hcache;
      (split; [reflexivity|]); (split; [reflexivity|]); (split; [assumption|]);
      (split; [apply color_distance_hex; assumption | assumption]).
  - intros bits img total l Hbits Hstep Hl Hn.
    destruct (for_each_tracks cls bits img total l Hmax Hbits Hstep Hl
                initial_state [] (tracks_initial cls))
      as (s & Hrun & [_ Hcache Hcount _ _] & _).
    cbn [app] in *. exists s. split; [assumption|].
    assert (Hlen : Z.of_nat (List.length
                     (admitted (capacity cls) (map (quantized bits img) l))) =
                   MAX_STYLES cls).
    { unfold admitted. rewrite length_firstn. unfold capacity in *. lia. }
    rewrite Hcache, cache_of_colors_length, Hcount. auto.
Qed.

(** C6.  Let the pixels [l] have been processed and [p] be the next.
    The pixel [p] puts a warning on the queue exactly when it is the first
    pixel to fall back; the queue never holds more than one warning, nor
    does the queue of a finished run.  The warning raises nothing: in a
    well-formed loop the pixel completes, and a well-formed run of at
    least 200 pixels goes on to the save and ends with the success
    message, with one warning if the colours overflowed the limit and
    none otherwise. *)
Theorem capacity_warning_once
  (cls : validator_class) (bits : Z) (img : image) (total : Z)
  (l : list (Z * Z)) (p : Z * Z) (s : worker_state) :
  0 <= MAX_STYLES cls ->
  for_each l (visit cls bits img total) initial_state = (Ok tt, s) ->
  let s' := snd (visit cls bits img total p s) in
  let first_fallback :=
    falls_back cls bits img s p = true
    /\ forall l1 p1 l2,
         l = l1 ++ p1 :: l2 ->
         falls_back cls bits img
           (snd (for_each l1 (visit cls bits img total) initial_state)) p1 = false in
  (exists ps,
      forallb is_progress ps = true
      /\ ((first_fallback /\ queue s' = queue s ++ [Warning] ++ ps)
          \/ (~ first_fallback /\ queue s' = queue s ++ ps)))
  /\ (warnings (queue s') <= 1)%nat
  /\ (forall req, (warnings (queue (run_worker cls req)) <= 1)%nat)
  /\ (0 < MAX_STYLES cls -> bits <= 8 -> total / 200 <> 0 ->
      Forall (in_image img) l -> in_image img p ->
      visit cls bits img total p s = (Ok tt, s'))
  /\ (forall req img',
        accepted cls req img' -> 0 < MAX_STYLES cls ->
        quantization_bits req <= 8 ->
        200 <= img_width img' * img_height img' ->
        save_error req = None ->
        exists msgs,
          queue (run_worker cls req) =
          msgs ++ [Success (output_of req) (style_count (run_worker cls req))]
          /\ warnings msgs =
             (if overflowed (capacity cls) (image_colors (quantization_bits req) img')
              then 1 else 0)%nat
          /\ Z.of_nat (List.length (cells (run_worker cls req))) =
             img_width img' * img_height img'
          /\ saved (run_worker cls req) = Some (output_of req)).
Proof.
  intros Hmax Hrun s' first_fallback.
  pose proof (for_each_counted cls bits img total l initial_state
                (counted_initial cls Hmax)) as Hcounted.
  rewrite Hrun in Hcounted. cbn [snd] in Hcounted.
  pose proof (warning_shown_iff_fell_back cls bits img total l s Hrun) as Hshown.
  split; [|split; [|split; [|split]]].
  - destruct (visit_queue cls bits img total p s) as (ps & Hps & Hq).
    fold s' in Hq. exists ps. split; [assumption|].
    destruct (falls_back cls bits img s p) eqn:Ef; cbn [andb] in Hq.
    + destruct (warning_shown s) eqn:Es; cbn [negb] in Hq.
      * right. split; [|exact Hq].
        intros [_ Hnone].
        destruct (proj1 Hshown eq_refl) as (l1 & p1 & l2 & El & Hf).
        rewrite (Hnone l1 p1 l2 El) in Hf. discriminate.
      * left. split; [|exact Hq]. subst first_fallback.
        split; [first [reflexivity | exact Ef]|]. intros l1 p1 l2 El.
        destruct (falls_back cls bits img
                    (snd (for_each l1 (visit cls bits img total) initial_state)) p1)
          eqn:Ef1; [|reflexivity].
        assert (false = true) by (apply Hshown; eauto). discriminate.
    + right. split; [|exact Hq]. subst first_fallback.
      intros [H _]. congruence.
  - destruct (visit_counted cls bits img total p s Hcounted) as (_ & _ & Hw).
    fold s' in Hw. rewrite Hw. destruct (warning_shown s'); lia.
  - intros req. destruct (run_worker_counted cls req Hmax) as (_ & _ & Hw).
    rewrite Hw. destruct (warning_shown (run_worker cls req)); lia.
  - intros Hpos Hbits Hstep Hl Hp.
    destruct (for_each_tracks cls bits img total l Hpos Hbits Hstep Hl
                initial_state [] (tracks_initial cls)) as (s0 & Hrun0 & Htr & _).
    assert (s0 = s) by congruence. subst s0.
    destruct (visit_tracks cls bits img total p s _ Hpos Hbits Hstep Hp Htr)
      as (c & s1 & Hvisit & _).
    subst s'. rewrite Hvisit. reflexivity.
  - intros req img' Hacc Hpos Hbits Htotal Hsave.
    destruct (run_worker_complete cls req img' Hacc Hpos Hbits Htotal Hsave)
      as (msgs & Hq & _ & _ & Hw & _ & _ & Hcells & _ & Hsaved).
    exists msgs. pose proof (acc_width _ _ _ Hacc). pose proof (acc_height _ _ _ Hacc).
    split; [assumption|]. split; [assumption|]. split; [|assumption].
    rewrite <- (length_map fst), Hcells, length_map.
    apply scan_order_length; lia.
Qed.

Lemma capacity_warning_once_witness :
  let img := ramp 20 10 in
  let body := visit three_styles 5 img 200 in
  let s := snd (for_each [(0, 0); (0, 1); (0, 2)] body initial_state) in
  let s' := snd (body (0, 3) s) in
  (warnings (queue s') <= 1)%nat /\ body (0, 3) s = (Ok tt, s').
Proof.
  intros img body s s'.
  pose proof (capacity_warning_once three_styles 5 img 200
                [(0, 0); (0, 1); (0, 2)] (0, 3) s
                ltac:(cbn; lia) ltac:(vm_compute; reflexivity))
    as (_ & Hle & _ & Hok & _).
  split; [exact Hle|].
  apply Hok.
  - cbn; lia.
  - lia.
  - vm_compute; discriminate.
  - repeat (apply Forall_cons; [split; cbn; lia|]). apply Forall_nil.
  - split; cbn; lia.
Defined.

Lemma saturated_cache_nearest_color_witness :
  let cs := [(0, 0, 0); (8, 8, 8); (16, 16, 16)] in
  let s := set_style_count 3 (set_color_cache (cache_of_colors cs) initial_state) in
  exists c s',
    resolve_style three_styles (hex_color_of (24, 24, 24)) s = (Ok (hex_color_of c), s')
    /\ color_cache s' = color_cache s
    /\ first_min (fun c' => sq_distance c' (24, 24, 24)) cs c.
Proof.
  intros cs s.
  destruct (proj1 (saturated_cache_nearest_color three_styles ltac:(cbn; lia))
              s cs (24, 24, 24) eq_refl
              ltac:(repeat (apply Forall_cons; [apply byte_rgb_intro; lia|]);
                    apply Forall_nil)
              eq_refl eq_refl
              ltac:(apply byte_rgb_intro; lia)
              ltac:(vm_compute; reflexivity))
    as (c & s' & H1 & H2 & _ & H4 & _).
  exists c, s'. auto.
Defined.

(* ================================================================== *)
(** * Further properties of the code *)

(** ** quantize_color beyond the shift rule *)

Lemma shift_multiple c s :
  0 <= s -> Z.shiftl (Z.shiftr c s) s = 2 ^ s * (c / 2 ^ s).
Proof.
  intros Hs. rewrite Z.shiftl_mul_pow2, Z.shiftr_div_pow2 by assumption. lia.
Qed.

Lemma shift_absorbs c s1 s2 :
  0 <= s2 <= s1 ->
  Z.shiftl (Z.shiftr (Z.shiftl (Z.shiftr c s2) s2) s1) s1 = Z.shiftl (Z.shiftr c s1) s1
  /\ Z.shiftl (Z.shiftr (Z.shiftl (Z.shiftr c s1) s1) s2) s2 = Z.shiftl (Z.shiftr c s1) s1.
Proof.
  intros Hs. split; apply Z.bits_inj'; intros i Hi;
    rewrite !shift_testbit by lia;
    destruct (i <? s1) eqn:E1; destruct (i <? s2) eqn:E2; try reflexivity;
    rewrite ?Z.ltb_lt, ?Z.ltb_ge in *; lia.
Qed.

(** The quantizer returns a colour exactly when [bits] is at most 8;
    above 8 the shift count is negative and it raises [ValueError]. *)
Theorem quantize_color_succeeds_iff (c : rgb) (bits : Z) :
  ((exists q, quantize_color c bits = Ok q) <-> bits <= 8)
  /\ (quantize_color c bits = Raise (ValueError "negative shift count") <-> 8 < bits).
Proof.
  destruct c as [[r g] b]. destruct (Z_le_gt_dec bits 8) as [Hle | Hgt].
  - rewrite (quantize_color_ok r g b bits Hle). split; split; intros H;
      try (eexists; reflexivity); try assumption; try discriminate; lia.
  - rewrite (quantize_color_too_many_bits (r, g, b) bits) by lia.
    split; split; intros H; try reflexivity; try lia.
    destruct H as (q & H). discriminate.
Qed.

(** Each quantized channel is the largest multiple of [2 ^ (8 - bits)]
    that does not exceed the channel: the loss is less than one step. *)
Theorem quantize_color_error_bound (r g b qr qg qb bits : Z) :
  bits <= 8 ->
  quantize_color (r, g, b) bits = Ok (qr, qg, qb) ->
  let step := 2 ^ (8 - bits) in
  (qr mod step = 0 /\ qr <= r < qr + step)
  /\ (qg mod step = 0 /\ qg <= g < qg + step)
  /\ (qb mod step = 0 /\ qb <= b < qb + step).
Proof.
  intros Hbits Hq step. rewrite quantize_color_ok in Hq by assumption.
  assert (Hp : 0 < step) by (apply Z.pow_pos_nonneg; lia).
  assert (Hch : forall c, let q := Z.shiftl (Z.shiftr c (8 - bits)) (8 - bits) in
                          q mod step = 0 /\ q <= c < q + step).
  { intros c q. subst q. split.
    - rewrite shift_multiple by lia. fold step.
      rewrite Z.mul_comm. apply Z.mod_mul. lia.
    - rewrite shift_clears_low_bits by lia. fold step.
      pose proof (Z.mod_pos_bound c step Hp). lia. }
  injection Hq as <- <- <-. repeat split; apply Hch.
Qed.

Lemma quantize_color_error_bound_witness :
  (200 mod 2 ^ (8 - 5) = 0 /\ 200 <= 201 < 200 + 2 ^ (8 - 5))
  /\ (72 mod 2 ^ (8 - 5) = 0 /\ 72 <= 77 < 72 + 2 ^ (8 - 5))
  /\ (0 mod 2 ^ (8 - 5) = 0 /\ 0 <= 5 < 0 + 2 ^ (8 - 5)).
Proof.
  exact (quantize_color_error_bound 201 77 5 200 72 0 5 ltac:(lia) eq_refl).
Defined.

(** Quantizing at a coarser precision absorbs a finer one, whichever is
    applied first: the result is the coarse colour. *)
Theorem quantize_color_coarser_absorbs (c : rgb) (coarse fine : Z) :
  coarse <= fine -> fine <= 8 ->
  exists qc qf,
    quantize_color c coarse = Ok qc
    /\ quantize_color c fine = Ok qf
    /\ quantize_color qf coarse = Ok qc
    /\ quantize_color qc fine = Ok qc.
Proof.
  intros H1 H2. destruct c as [[r g] b].
  do 2 eexists. split; [apply quantize_color_ok; lia|].
  split; [apply quantize_color_ok; lia|].
  rewrite !quantize_color_ok by lia.
  assert (Hs : 0 <= 8 - fine <= 8 - coarse) by lia.
  destruct (shift_absorbs r _ _ Hs) as [-> ->].
  destruct (shift_absorbs g _ _ Hs) as [-> ->].
  destruct (shift_absorbs b _ _ Hs) as [-> ->].
  split; reflexivity.
Qed.

Lemma quantize_color_coarser_absorbs_witness :
  exists qc qf,
    quantize_color (201, 77, 5) 2 = Ok qc
    /\ quantize_color (201, 77, 5) 6 = Ok qf
    /\ quantize_color qf 2 = Ok qc
    /\ quantize_color qc 6 = Ok qc.
Proof.
  apply (quantize_color_coarser_absorbs (201, 77, 5) 2 6); lia.
Defined.

(** Quantization keeps the order of each channel: a brighter channel
    never quantizes below a darker one. *)
Theorem quantize_color_monotone (r1 g1 b1 r2 g2 b2 bits : Z) :
  bits <= 8 -> r1 <= r2 -> g1 <= g2 -> b1 <= b2 ->
  exists q1 q2,
    quantize_color (r1, g1, b1) bits = Ok q1
    /\ quantize_color (r2, g2, b2) bits = Ok q2
    /\ fst (fst q1) <= fst (fst q2)
    /\ snd (fst q1) <= snd (fst q2)
    /\ snd q1 <= snd q2.
Proof.
  intros Hbits Hr Hg Hb.
  do 2 eexists. split; [apply quantize_color_ok; assumption|].
  split; [apply quantize_color_ok; assumption|].
  cbn [fst snd]. rewrite !shift_multiple by lia.
  assert (Hp : 0 < 2 ^ (8 - bits)) by (apply Z.pow_pos_nonneg; lia).
  pose proof (Z.div_le_mono r1 r2 _ Hp Hr).
  pose proof (Z.div_le_mono g1 g2 _ Hp Hg).
  pose proof (Z.div_le_mono b1 b2 _ Hp Hb).
  repeat split; apply Z.mul_le_mono_nonneg_l; lia.
Qed.

Lemma quantize_color_monotone_witness :
  exists q1 q2,
    quantize_color (10, 20, 30) 4 = Ok q1
    /\ quantize_color (11, 200, 30) 4 = Ok q2
    /\ fst (fst q1) <= fst (fst q2)
    /\ snd (fst q1) <= snd (fst q2)
    /\ snd q1 <= snd q2.
Proof.
  apply (quantize_color_monotone 10 20 30 11 200 30 4); lia.
Defined.

(** At 8 bits every colour is returned unchanged; at 0 bits or fewer
    every 8-bit colour becomes black. *)
Theorem quantize_color_extremes (r g b bits : Z) :
  quantize_color (r, g, b) 8 = Ok (r, g, b)
  /\ (bits <= 0 -> byte_rgb (r, g, b) -> quantize_color (r, g, b) bits = Ok (0, 0, 0)).
Proof.
  split.
  - rewrite quantize_color_ok by lia. change (8 - 8) with 0.
    rewrite !Z.shiftr_0_r, !Z.shiftl_0_r. reflexivity.
  - intros Hbits (Hr & Hg & Hb). rewrite quantize_color_ok by lia.
    assert (Hz : forall c, 0 <= c < 256 ->
                           Z.shiftl (Z.shiftr c (8 - bits)) (8 - bits) = 0).
    { intros c Hc. rewrite shift_multiple by lia.
      assert (256 <= 2 ^ (8 - bits)).
      { change 256 with (2 ^ 8). apply Z.pow_le_mono_r; lia. }
      rewrite Z.div_small by lia. lia. }
    rewrite !Hz by assumption. reflexivity.
Qed.

(* ================================================================== *)
(** ** validate_size beyond the ceilings *)

(** An image no larger in either dimension than an accepted one is
    accepted as well. *)
Theorem validate_size_downward_closed (cls : validator_class) (w h w' h' : Z) :
  fst (validate_size cls w h) = true -> w' <= w -> h' <= h ->
  validate_size cls w' h' = (true, NoMessage).
Proof.
  unfold validate_size. destruct (MAX_DIMENSIONS cls) as [max_rows max_cols].
  intros Hacc Hw Hh.
  destruct (h >? max_rows) eqn:E1; [discriminate|].
  destruct (w >? max_cols) eqn:E2; [discriminate|].
  rewrite Z.gtb_ltb in E1, E2. apply Z.ltb_ge in E1, E2.
  assert (E3 : (h' >? max_rows) = false) by (rewrite Z.gtb_ltb; apply Z.ltb_ge; lia).
  assert (E4 : (w' >? max_cols) = false) by (rewrite Z.gtb_ltb; apply Z.ltb_ge; lia).
  rewrite E3, E4. reflexivity.
Qed.

Lemma validate_size_downward_closed_witness :
  validate_size ExcelSizeValidator 640 480 = (true, NoMessage).
Proof.
  exact (validate_size_downward_closed ExcelSizeValidator 16384 1048576 640 480
           eq_refl ltac:(lia) ltac:(lia)).
Defined.

(* ================================================================== *)
(** ** Keys and color_distance *)

Lemma hex_color_of_shape q :
  byte_rgb q ->
  exists r1 r2 g1 g2 b1 b2,
    hex_color_of q =
    String "F" (String "F" (String r1 (String r2 (String g1 (String g2
      (String b1 (String b2 EmptyString))))))).
Proof.
  destruct q as [[r g] b]. intros (Hr & Hg & Hb).
  destruct (format_02X_byte r Hr) as (r1 & r2 & Er & _).
  destruct (format_02X_byte g Hg) as (g1 & g2 & Eg & _).
  destruct (format_02X_byte b Hb) as (b1 & b2 & Eb & _).
  exists r1, r2, g1, g2, b1, b2. unfold hex_color_of. rewrite Er, Eg, Eb. reflexivity.
Qed.

(** The key of an 8-bit colour has eight characters, starts with [FF],
    and [hex_to_rgb] reads the colour back from it. *)
Theorem hex_color_key_roundtrip (q : rgb) :
  byte_rgb q ->
  hex_to_rgb (hex_color_of q) = Ok q
  /\ String.length (hex_color_of q) = 8%nat
  /\ substring 0 2 (hex_color_of q) = "FF".
Proof.
  intros Hq. split; [apply hex_to_rgb_hex_color_of; assumption|].
  destruct (hex_color_of_shape q Hq) as (r1 & r2 & g1 & g2 & b1 & b2 & ->).
  split; reflexivity.
Qed.

Lemma hex_color_key_roundtrip_witness :
  hex_to_rgb (hex_color_of (248, 0, 16)) = Ok (248, 0, 16)
  /\ String.length (hex_color_of (248, 0, 16)) = 8%nat
  /\ substring 0 2 (hex_color_of (248, 0, 16)) = "FF".
Proof.
  apply (hex_color_key_roundtrip (248, 0, 16)). apply byte_rgb_intro; lia.
Defined.

(** Two 8-bit colours have the same key only when they are the same
    colour: the cache never merges distinct colours by accident. *)
Theorem distinct_colors_distinct_keys (q1 q2 : rgb) :
  byte_rgb q1 -> byte_rgb q2 ->
  (hex_color_of q1 = hex_color_of q2 <-> q1 = q2).
Proof.
  intros H1 H2. split; [apply hex_color_of_inj; assumption | congruence].
Qed.

Lemma distinct_colors_distinct_keys_witness :
  hex_color_of (1, 2, 3) = hex_color_of (1, 2, 3) <-> (1, 2, 3) = (1, 2, 3).
Proof.
  apply (distinct_colors_distinct_keys (1, 2, 3) (1, 2, 3)); apply byte_rgb_intro; lia.
Defined.

(** On the keys of 8-bit colours [color_distance] is the squared
    Euclidean distance: symmetric, between 0 and 3 * 255 ^ 2, and zero
    only between a colour and itself. *)
Theorem color_distance_metric (a b : rgb) :
  byte_rgb a -> byte_rgb b ->
  color_distance (hex_color_of a) (hex_color_of b) = Ok (sq_distance a b)
  /\ color_distance (hex_color_of b) (hex_color_of a) = Ok (sq_distance a b)
  /\ 0 <= sq_distance a b <= 195075
  /\ (sq_distance a b = 0 <-> a = b).
Proof.
  intros Ha Hb.
  split; [apply color_distance_hex; assumption|].
  split; [rewrite (sq_distance_sym a b); apply color_distance_hex; assumption|].
  destruct a as [[r1 g1] b1], b as [[r2 g2] b2].
  destruct Ha as (? & ? & ?), Hb as (? & ? & ?). unfold sq_distance.
  split; [nia|]. split.
  - intros Hzero. assert (r1 = r2) by nia. assert (g1 = g2) by nia.
    assert (b1 = b2) by nia. congruence.
  - intros E. injection E as -> -> ->. rewrite !Z.sub_diag. reflexivity.
Qed.

Lemma color_distance_metric_witness :
  color_distance (hex_color_of (248, 0, 0)) (hex_color_of (240, 8, 0)) = Ok 128.
Proof.
  exact (proj1 (color_distance_metric (248, 0, 0) (240, 8, 0)
                  ltac:(apply byte_rgb_intro; lia) ltac:(apply byte_rgb_intro; lia))).
Defined.

Lemma int16_raise s e :
  int16 s = Raise e -> e = ValueError "invalid literal for int() with base 16".
Proof.
  unfold int16.
  repeat match goal with
         | |- context [match ?x with _ => _ end] => destruct x
         end;
    intros H; first [discriminate H | injection H as <-; reflexivity].
Qed.

Lemma substring_beyond (n m : nat) (s : string) :
  (String.length s <= n)%nat -> substring n m s = "".
Proof.
  revert s. induction n as [|n IH]; intros s Hs.
  - destruct s; [|cbn in Hs; lia]. destruct m; reflexivity.
  - destruct s as [|a s]; [reflexivity|]. cbn [substring]. apply IH.
    cbn in Hs. lia.
Qed.

(** A string of fewer than seven characters is no key: [hex_to_rgb]
    raises [ValueError] on it, and so does [color_distance] with it on
    either side. *)
Theorem color_distance_short_key (h h' : string) :
  (String.length h <= 6)%nat ->
  let invalid := ValueError "invalid literal for int() with base 16" in
  hex_to_rgb h = Raise invalid
  /\ color_distance h h' = Raise invalid
  /\ color_distance h' h = Raise invalid.
Proof.
  intros Hlen invalid. subst invalid.
  assert (Hh : hex_to_rgb h =
               Raise (ValueError "invalid literal for int() with base 16")).
  { unfold hex_to_rgb. rewrite (substring_beyond 6 2 h Hlen).
    destruct (int16 (substring 2 2 h)) as [r|e] eqn:Er; cbn [rbind];
      [|apply int16_raise in Er; subst; reflexivity].
    destruct (int16 (substring 4 2 h)) as [g|e] eqn:Eg; cbn [rbind];
      [|apply int16_raise in Eg; subst; reflexivity].
    reflexivity. }
  split; [assumption|]. unfold color_distance. rewrite Hh. cbn [rbind].
  split; [reflexivity|].
  destruct (hex_to_rgb h') as [c|e] eqn:E; cbn [rbind]; [reflexivity|].
  unfold hex_to_rgb in E.
  destruct (int16 (substring 2 2 h')) as [r|e1] eqn:Er; cbn [rbind] in E;
    [|apply int16_raise in Er; congruence].
  destruct (int16 (substring 4 2 h')) as [g|e2] eqn:Eg; cbn [rbind] in E;
    [|apply int16_raise in Eg; congruence].
  destruct (int16 (substring 6 2 h')) as [b|e3] eqn:Eb; cbn [rbind] in E;
    [discriminate|apply int16_raise in Eb; congruence].
Qed.

Lemma color_distance_short_key_witness :
  hex_to_rgb "FF1234" = Raise (ValueError "invalid literal for int() with base 16").
Proof.
  exact (proj1 (color_distance_short_key "FF1234" "FF000000" ltac:(cbn; lia))).
Defined.

(* ================================================================== *)
(** ** Every run of the worker *)

Lemma advisory_not_terminal msgs :
  forallb advisory msgs = true -> filter is_terminal msgs = [].
Proof.
  induction msgs as [|m msgs IH]; [reflexivity|].
  cbn [forallb filter]. intros H. apply andb_true_iff in H. destruct H as [Hm Hr].
  destruct m; try discriminate; cbn [is_terminal]; auto.
Qed.

Lemma finish_queue req loop :
  exists t,
    is_terminal t = true
    /\ queue (finish req loop) = queue (snd loop) ++ [t].
Proof.
  destruct loop as [[[]|e] s]; cbn [finish snd];
    [destruct (save_error req)|]; eexists; (split; [|reflexivity]); reflexivity.
Qed.

Lemma run_worker_queue cls req :
  exists msgs t,
    queue (run_worker cls req) = msgs ++ [t]
    /\ forallb advisory msgs = true
    /\ is_terminal t = true.
Proof.
  destruct (run_worker_cases cls req) as [(t & ->) | (img & _ & ->)].
  - exists [], (Error t). repeat split.
  - destruct (finish_queue req
                (pixel_loop cls (quantization_bits req) img
                   (img_width img * img_height img) initial_state))
      as (t & Ht & ->).
    eexists. exists t. split; [reflexivity|]. split; [|assumption].
    rewrite pixel_loop_scan_order. apply for_each_advisory. reflexivity.
Qed.

(** Whatever the request, the queue of a run is a series of progress and
    warning messages followed by exactly one success or error message. *)
Theorem run_ends_with_one_terminal (cls : validator_class) (req : request) :
  exists msgs t,
    queue (run_worker cls req) = msgs ++ [t]
    /\ forallb advisory msgs = true
    /\ is_terminal t = true
    /\ filter is_terminal (queue (run_worker cls req)) = [t].
Proof.
  destruct (run_worker_queue cls req) as (msgs & t & Hq & Hadv & Ht).
  exists msgs, t. repeat split; try assumption.
  rewrite Hq, filter_app, (advisory_not_terminal msgs Hadv). cbn [filter app].
  rewrite Ht. reflexivity.
Qed.

Lemma pixel_loop_saved cls bits img total :
  saved (snd (pixel_loop cls bits img total initial_state)) = None.
Proof. rewrite pixel_loop_scan_order. apply for_each_saved. Qed.

(** A run announces a success exactly when it has saved the file: either
    the file is saved and the last message is the success carrying its
    path and the number of styles in the cache, or nothing is saved and
    the last message is an error. *)
Theorem success_iff_saved (cls : validator_class) (req : request) :
  0 <= MAX_STYLES cls ->
  let s := run_worker cls req in
  (saved s = Some (output_of req)
   /\ (exists msgs, queue s = msgs ++ [Success (output_of req) (style_count s)])
   /\ style_count s = Z.of_nat (List.length (color_cache s)))
  \/ (saved s = None /\ exists msgs t, queue s = msgs ++ [Error t]).
Proof.
  intros Hmax s. destruct (run_worker_counted cls req Hmax) as (Hcount & _).
  fold s in Hcount. subst s.
  destruct (run_worker_cases cls req) as [(t & E) | (img & _ & E)];
    rewrite E in *.
  - right. split; [reflexivity|]. exists [], t. reflexivity.
  - pose proof (pixel_loop_saved cls (quantization_bits req) img
                  (img_width img * img_height img)) as Hsaved.
    destruct (pixel_loop cls (quantization_bits req) img
                (img_width img * img_height img) initial_state) as [[[]|e] s0].
    + cbn [finish snd] in *. destruct (save_error req) as [e|].
      * right. split; [exact Hsaved|]. eexists. eexists. reflexivity.
      * left. split; [reflexivity|]. split; [eexists; reflexivity | exact Hcount].
    + right. cbn [finish snd] in *. split; [exact Hsaved|].
      eexists. eexists. reflexivity.
Qed.

Lemma success_iff_saved_witness :
  let s := conversion_worker (request_for (ramp 20 10) 5) in
  (saved s = Some (output_of (request_for (ramp 20 10) 5))
   /\ (exists msgs,
         queue s = msgs ++ [Success (output_of (request_for (ramp 20 10) 5))
                              (style_count s)])
   /\ style_count s = Z.of_nat (List.length (color_cache s)))
  \/ (saved s = None /\ exists msgs t, queue s = msgs ++ [Error t]).
Proof.
  exact (success_iff_saved ExcelSizeValidator (request_for (ramp 20 10) 5)
           ltac:(cbn; lia)).
Defined.

(** The checks before the loop are made in order (paths, file, decoding,
    size) and the first that fails ends the run with its own error as the
    only message: no cell is written, no style made, nothing saved. *)
Theorem rejected_before_any_cell (cls : validator_class) (req : request) :
  (image_path req = "" \/ output_dir req = "" ->
   run_worker cls req = set_queue [Error PathsMissing] initial_state)
  /\ (image_path req <> "" -> output_dir req <> "" -> path_exists req = false ->
      run_worker cls req = set_queue [Error FileMissing] initial_state)
  /\ (forall e,
        image_path req <> "" -> output_dir req <> "" -> path_exists req = true ->
        opened req = Raise e ->
        run_worker cls req = set_queue [Error (ExceptionText e)] initial_state)
  /\ (forall img,
        image_path req <> "" -> output_dir req <> "" -> path_exists req = true ->
        opened req = Ok img ->
        fst (validate_size cls (img_width img) (img_height img)) = false ->
        run_worker cls req =
        set_queue
          [Error (SizeExceeded (snd (validate_size cls (img_width img) (img_height img))))]
          initial_state).
Proof.
  unfold run_worker, conversion_body.
  split; [|split; [|split]].
  - intros [E | E]; rewrite E; [|destruct (image_path req)]; reflexivity.
  - intros H1 H2 H3. destruct (image_path req); [congruence|].
    destruct (output_dir req); [congruence|]. rewrite H3. reflexivity.
  - intros e H1 H2 H3 H4. destruct (image_path req); [congruence|].
    destruct (output_dir req); [congruence|]. rewrite H3. cbn [nonempty andb negb].
    unfold bind, lift. rewrite H4. reflexivity.
  - intros img H1 H2 H3 H4 H5. destruct (image_path req); [congruence|].
    destruct (output_dir req); [congruence|]. rewrite H3. cbn [nonempty andb negb].
    unfold bind at 1. unfold lift at 1. rewrite H4. cbv zeta.
    destruct (validate_size cls (img_width img) (img_height img)) as [valid msg].
    cbn [fst snd] in *. subst valid. reflexivity.
Qed.

(* ------------------------------------------------------------------ *)
(** *** The fills of the cells *)

Lemma dict_get_in {V} (d : list (string * V)) k v :
  dict_get d k = Ok v -> In v (map snd d).
Proof.
  unfold dict_get. induction d as [|[k' v'] d IH]; [discriminate|].
  fold (@dict_get V) in *. cbn [map snd In].
  destruct (String.eqb k k'); intros H; [left; congruence | right; auto].
Qed.

(** What one pixel does to the sheet: nothing, or one cell at its own
    row and column with a fill read from the cache. *)
Lemma visit_cells cls bits img total p s :
  let s' := snd (visit cls bits img total p s) in
  cells s' = cells s
  \/ exists fill,
       In fill (map snd (color_cache s'))
       /\ cells s' = cells s ++ [(fst p + 1, snd p + 1, fill)].
Proof.
  pixel_cases; auto; right; eexists;
    (split; [eapply dict_get_in; eassumption | reflexivity]).
Qed.

Lemma visit_cells_cached cls bits img total p s :
  cells_cached s -> cells_cached (snd (visit cls bits img total p s)).
Proof.
  intros Hs cell.
  pose proof (visit_cache cls bits img total p s) as Hcache.
  pose proof (visit_cells cls bits img total p s) as Hcells.
  cbv zeta in Hcache, Hcells.
  set (s' := snd (visit cls bits img total p s)) in *.
  assert (Hgrow : forall f, In f (map snd (color_cache s)) ->
                            In f (map snd (color_cache s'))).
  { intros f Hf. destruct Hcache as [[-> _] | (k & _ & _ & -> & _)]; [assumption|].
    rewrite map_app. apply in_or_app. left. assumption. }
  destruct Hcells as [-> | (fill & Hfill & ->)].
  - intros Hin. apply Hgrow, Hs, Hin.
  - intros Hin. apply in_app_or in Hin. destruct Hin as [Hin | [<- | []]].
    + apply Hgrow, Hs, Hin.
    + exact Hfill.
Qed.

Lemma for_each_cells_cached cls bits img total l s :
  cells_cached s -> cells_cached (snd (for_each l (visit cls bits img total) s)).
Proof.
  revert s. induction l as [|p l IH]; intros s Hs; [assumption|].
  cbn [for_each]. unfold bind.
  pose proof (visit_cells_cached cls bits img total p s Hs) as Hs'.
  destruct (visit cls bits img total p s) as [[[]|e] s1]; cbn [snd] in *; auto.
Qed.

Lemma run_worker_cells_cached cls req : cells_cached (run_worker cls req).
Proof.
  destruct (run_worker_cases cls req) as [(t & ->) | (img & _ & ->)].
  - intros cell [].
  - pose proof (for_each_cells_cached cls (quantization_bits req) img
                  (img_width img * img_height img) (scan_order img) initial_state)
      as Hloop.
    rewrite <- pixel_loop_scan_order in Hloop.
    destruct (pixel_loop cls (quantization_bits req) img
                (img_width img * img_height img) initial_state) as [[[]|e] s0];
      cbn [finish snd] in *; [destruct (save_error req)|];
      apply Hloop; intros cell [].
Qed.

(** Whatever the request, every cell holds a fill stored in the cache
    the run ends with, so the cells of a sheet never use more than
    [MAX_STYLES] different fills. *)
Theorem at_most_max_styles_fills
  (cls : validator_class) (req : request) (fills : list PatternFill) :
  0 <= MAX_STYLES cls ->
  NoDup fills ->
  (forall f, In f fills -> exists cell, In cell (cells (run_worker cls req))
                                        /\ snd cell = f) ->
  Z.of_nat (List.length fills) <= MAX_STYLES cls
  /\ (forall cell, In cell (cells (run_worker cls req)) ->
        In (snd cell) (map snd (color_cache (run_worker cls req)))).
Proof.
  intros Hmax Hnodup Hused.
  pose proof (run_worker_cells_cached cls req) as Hcached.
  destruct (run_worker_counted cls req Hmax) as (Hcount & Hle & _).
  split; [|exact Hcached].
  assert (Hincl : incl fills (map snd (color_cache (run_worker cls req)))).
  { intros f Hf. destruct (Hused f Hf) as (cell & Hcell & <-). auto. }
  pose proof (NoDup_incl_length Hnodup Hincl) as Hlen.
  rewrite length_map in Hlen. lia.
Qed.

Lemma at_most_max_styles_fills_witness :
  let req := request_for (ramp 20 10) 5 in
  Z.of_nat (List.length [solid_fill "FF080808"; solid_fill "FF101010"]) <= 64000.
Proof.
  intros req.
  refine (proj1 (at_most_max_styles_fills ExcelSizeValidator req
                   [solid_fill "FF080808"; solid_fill "FF101010"]
                   ltac:(cbn; lia) _ _)).
  - repeat constructor; cbn; intros H; repeat destruct H as [H | H];
      try discriminate; assumption.
  - intros f [<- | [<- | []]].
    + exists (1, 2, solid_fill "FF080808"). split; [vm_compute; tauto | reflexivity].
    + exists (1, 3, solid_fill "FF101010"). split; [vm_compute; tauto | reflexivity].
Defined.

(* ------------------------------------------------------------------ *)
(** *** Well-formed runs of at least 200 pixels *)

Lemma for_each_tracks_cells cls bits img total l :
  0 < MAX_STYLES cls -> bits <= 8 -> total / 200 <> 0 ->
  Forall (in_image img) l ->
  forall s qs,
    tracks cls qs s ->
    exists s' cs,
      for_each l (visit cls bits img total) s = (Ok tt, s')
      /\ cells s' = cells s ++ cs
      /\ cells_resolved (capacity cls) bits img qs l cs.
Proof.
  intros Hmax Hbits Hstep Hl. induction Hl as [|p l Hp Hl IH]; intros s qs Htr.
  - exists s, []. rewrite app_nil_r. repeat split. constructor.
  - destruct (visit_tracks cls bits img total p s qs Hmax Hbits Hstep Hp Htr)
      as (c & s1 & Hvisit & Htr1 & Hc & Hcells & _).
    destruct (IH s1 _ Htr1) as (s' & cs & Hloop & Hcells' & Hres).
    exists s'. eexists. cbn [for_each]. unfold bind. rewrite Hvisit.
    split; [exact Hloop|]. split.
    + rewrite Hcells', Hcells, <- app_assoc. reflexivity.
    + constructor; assumption.
Qed.

(** The loop of a well-formed run of at least 200 pixels completes, and
    the run is what [finish] makes of its state. *)
Lemma well_formed_loop cls req img :
  accepted cls req img ->
  0 < MAX_STYLES cls -> quantization_bits req <= 8 ->
  200 <= img_width img * img_height img ->
  exists s0 cs,
    run_worker cls req = finish req (Ok tt, s0)
    /\ cells s0 = cs
    /\ cells_resolved (capacity cls) (quantization_bits req) img [] (scan_order img) cs
    /\ filter is_progress (queue s0) =
       checkpoints (img_width img * img_height img) 0 (List.length (scan_order img))
    /\ saved s0 = None.
Proof.
  intros Hacc Hmax Hbits Htotal.
  rewrite (run_worker_accepted cls req img Hacc), pixel_loop_scan_order.
  destruct (for_each_tracks_cells cls (quantization_bits req) img _ (scan_order img)
              Hmax Hbits (checkpoint_step _ Htotal) (scan_order_all_in_image img)
              initial_state [] (tracks_initial cls))
    as (s0 & cs & Hloop & Hcells & Hres).
  destruct (for_each_tracks cls (quantization_bits req) img _ (scan_order img)
              Hmax Hbits (checkpoint_step _ Htotal) (scan_order_all_in_image img)
              initial_state [] (tracks_initial cls))
    as (s0' & Hloop' & _ & _ & _ & Hprog & Hsaved).
  assert (s0' = s0) by congruence. subst s0'.
  exists s0, cs. rewrite Hloop. repeat split; assumption.
Qed.

Lemma finish_cells req loop : cells (finish req loop) = cells (snd loop).
Proof.
  destruct loop as [[[]|e] s]; cbn [finish snd]; [destruct (save_error req)|];
    reflexivity.
Qed.

Lemma overflowed_prefix M qs qs' :
  overflowed M (qs ++ qs') = false -> overflowed M qs = false.
Proof.
  induction qs' as [|q qs' IH] using rev_ind.
  - rewrite app_nil_r. auto.
  - rewrite app_assoc, overflowed_snoc. intros H.
    apply orb_false_iff in H. apply IH. apply H.
Qed.

Lemma resolved_exact M qs q c :
  overflowed M (qs ++ [q]) = false -> resolved M qs q c -> c = q.
Proof.
  intros Hover. unfold resolved. rewrite (overflowed_length _ _ Hover).
  assert (Hin : seen q (distinct (qs ++ [q])) = true).
  { apply seen_in, in_distinct, in_or_app. right. left. reflexivity. }
  rewrite Hin. auto.
Qed.

Lemma cells_resolved_exact M bits img l :
  forall qs cs,
    overflowed M (qs ++ map (quantized bits img) l) = false ->
    cells_resolved M bits img qs l cs ->
    cs = map (exact_cell bits img) l.
Proof.
  induction l as [|p l IH]; intros qs cs Hover Hres; inversion Hres; subst.
  - reflexivity.
  - cbn [map] in *. unfold exact_cell at 1.
    replace (qs ++ quantized bits img p :: map (quantized bits img) l)
      with ((qs ++ [quantized bits img p]) ++ map (quantized bits img) l) in Hover
      by (rewrite <- app_assoc; reflexivity).
    rewrite (resolved_exact M qs _ c (overflowed_prefix _ _ _ Hover)) by assumption.
    f_equal. apply (IH _ _ Hover). assumption.
Qed.

Lemma cells_resolved_nth M bits img l1 p l2 :
  forall qs cs,
    cells_resolved M bits img qs (l1 ++ p :: l2) cs ->
    exists c,
      nth_error cs (List.length l1) =
      Some (fst p + 1, snd p + 1, solid_fill (hex_color_of c))
      /\ resolved M (qs ++ map (quantized bits img) l1) (quantized bits img p) c.
Proof.
  induction l1 as [|p1 l1 IH]; intros qs cs Hres; inversion Hres; subst.
  - exists c. rewrite app_nil_r. split; [reflexivity | assumption].
  - destruct (IH _ _ H4) as (c' & Hnth & Hc'). exists c'. split; [exact Hnth|].
    cbn [map]. rewrite <- app_assoc in Hc'. exact Hc'.
Qed.

(** While the image has at most [MAX_STYLES] distinct quantized colours,
    a well-formed run fills the cell of every pixel, in row-major order
    at row y + 1 and column x + 1, with exactly the quantized colour of
    that pixel. *)
Theorem exact_cells_under_capacity
  (cls : validator_class) (req : request) (img : image) :
  accepted cls req img ->
  0 < MAX_STYLES cls -> quantization_bits req <= 8 ->
  200 <= img_width img * img_height img ->
  (List.length (distinct (image_colors (quantization_bits req) img))
   <= capacity cls)%nat ->
  cells (run_worker cls req) =
  map (exact_cell (quantization_bits req) img) (scan_order img).
Proof.
  intros Hacc Hmax Hbits Htotal Hn.
  destruct (well_formed_loop cls req img Hacc Hmax Hbits Htotal)
    as (s0 & cs & -> & Hcells & Hres & _).
  rewrite finish_cells. cbn [snd]. rewrite Hcells.
  apply (cells_resolved_exact (capacity cls) _ _ _ [] cs); [|assumption].
  cbn [app]. apply Nat.ltb_ge. exact Hn.
Qed.

Lemma ramp_accepted w h bits :
  0 < w <= 16384 -> 0 < h <= 1048576 ->
  accepted ExcelSizeValidator (request_for (ramp w h) bits) (ramp w h).
Proof.
  intros Hw Hh. constructor; cbn; try discriminate; try reflexivity; lia.
Qed.

Lemma exact_cells_under_capacity_witness :
  cells (conversion_worker (request_for (ramp 20 10) 5)) =
  map (exact_cell 5 (ramp 20 10)) (scan_order (ramp 20 10)).
Proof.
  refine (exact_cells_under_capacity ExcelSizeValidator (request_for (ramp 20 10) 5)
            (ramp 20 10) (ramp_accepted 20 10 5 ltac:(lia) ltac:(lia))
            ltac:(cbn; lia) ltac:(cbn; lia) ltac:(cbn; lia) _).
  apply Nat.leb_le. vm_compute. reflexivity.
Defined.

(** In a well-formed run the cell of every pixel holds the colour the
    pixel resolves to, given the pixels before it: its own quantized
    colour if that is admitted to the cache, otherwise the first admitted
    colour at the least squared distance. *)
Theorem every_cell_resolved
  (cls : validator_class) (req : request) (img : image)
  (before : list (Z * Z)) (p : Z * Z) (after : list (Z * Z)) :
  accepted cls req img ->
  0 < MAX_STYLES cls -> quantization_bits req <= 8 ->
  200 <= img_width img * img_height img ->
  scan_order img = before ++ p :: after ->
  let bits := quantization_bits req in
  let met := map (quantized bits img) before in
  let q := quantized bits img p in
  exists c,
    nth_error (cells (run_worker cls req)) (List.length before) =
    Some (fst p + 1, snd p + 1, solid_fill (hex_color_of c))
    /\ (if seen q (admitted (capacity cls) (met ++ [q]))
        then c = q
        else first_min (fun c' => sq_distance c' q) (admitted (capacity cls) met) c).
Proof.
  intros Hacc Hmax Hbits Htotal Hscan bits met q.
  destruct (well_formed_loop cls req img Hacc Hmax Hbits Htotal)
    as (s0 & cs & -> & Hcells & Hres & _).
  rewrite finish_cells. cbn [snd]. rewrite Hcells.
  rewrite Hscan in Hres.
  destruct (cells_resolved_nth _ _ _ _ _ _ _ _ Hres) as (c & Hnth & Hc).
  exists c. split; [exact Hnth|]. exact Hc.
Qed.

Lemma every_cell_resolved_witness :
  exists c,
    nth_error (cells (run_worker three_styles (request_for (ramp 20 10) 5))) 3 =
    Some (0 + 1, 3 + 1, solid_fill (hex_color_of c)).
Proof.
  assert (Hacc : accepted three_styles (request_for (ramp 20 10) 5) (ramp 20 10))
    by (constructor; cbn; try discriminate; try reflexivity; lia).
  destruct (every_cell_resolved three_styles (request_for (ramp 20 10) 5) (ramp 20 10)
              [(0, 0); (0, 1); (0, 2)] (0, 3) (skipn 4 (scan_order (ramp 20 10)))
              Hacc ltac:(cbn; lia) ltac:(cbn; lia) ltac:(cbn; lia)
              ltac:(vm_compute; reflexivity))
    as (c & Hnth & _).
  exists c. exact Hnth.
Defined.

(** With more than 8 bits chosen, a run that reaches the loop stops at
    its first pixel: the only message is the [ValueError] of the negative
    shift, and no cell is written. *)
Theorem too_many_bits_run (cls : validator_class) (req : request) (img : image) :
  accepted cls req img ->
  8 < quantization_bits req ->
  run_worker cls req =
  set_queue [Error (ExceptionText (ValueError "negative shift count"))] initial_state.
Proof.
  intros Hacc Hbits.
  rewrite (run_worker_accepted cls req img Hacc), pixel_loop_scan_order.
  destruct (acc_width _ _ _ Hacc) as [Hw _]. destruct (acc_height _ _ _ Hacc) as [Hh _].
  destruct (scan_order_head img Hw Hh) as (rest & ->).
  assert (Hp : in_image img (0, 0)) by (split; cbn [fst snd]; lia).
  destruct (pixel_access_in_image img (0, 0) Hp) as (c & Hc & _).
  cbn [fst snd] in Hc.
  cbn [for_each]. unfold visit, process_pixel, bind, lift. cbn [fst snd].
  rewrite Hc, (quantize_color_too_many_bits c _ Hbits). reflexivity.
Qed.

Lemma too_many_bits_run_witness :
  conversion_worker (request_for (ramp 20 10) 9) =
  set_queue [Error (ExceptionText (ValueError "negative shift count"))] initial_state.
Proof.
  exact (too_many_bits_run ExcelSizeValidator (request_for (ramp 20 10) 9) (ramp 20 10)
           (ramp_accepted 20 10 9 ltac:(lia) ltac:(lia)) ltac:(cbn; lia)).
Defined.

(** When saving fails after a well-formed loop, every cell has been
    written but the run ends with the error of the save as its last
    message: no success is announced and no file is recorded. *)
Theorem save_failure_run
  (cls : validator_class) (req : request) (img : image) (e : exn) :
  accepted cls req img ->
  0 < MAX_STYLES cls -> quantization_bits req <= 8 ->
  200 <= img_width img * img_height img ->
  save_error req = Some e ->
  let s := run_worker cls req in
  (exists msgs, queue s = msgs ++ [Error (ExceptionText e)]
                /\ forallb advisory msgs = true)
  /\ saved s = None
  /\ Z.of_nat (List.length (cells s)) = img_width img * img_height img.
Proof.
  intros Hacc Hmax Hbits Htotal Hsave s. subst s.
  destruct (for_each_tracks cls (quantization_bits req) img _ (scan_order img)
              Hmax Hbits (checkpoint_step _ Htotal) (scan_order_all_in_image img)
              initial_state [] (tracks_initial cls))
    as (s0 & Hloop & _ & Hcells & _ & _ & Hsaved).
  pose proof (for_each_advisory cls (quantization_bits req) img
                (img_width img * img_height img) (scan_order img) initial_state
                eq_refl) as Hadv.
  rewrite Hloop in Hadv. cbn [snd] in Hadv.
  rewrite (run_worker_accepted cls req img Hacc), pixel_loop_scan_order, Hloop.
  unfold finish. rewrite Hsave. state_simpl.
  pose proof (acc_width _ _ _ Hacc). pose proof (acc_height _ _ _ Hacc).
  split; [exists (queue s0); auto|]. split; [exact Hsaved|].
  rewrite <- (length_map fst), Hcells. cbn [cells initial_state map app].
  rewrite length_map. apply scan_order_length; lia.
Qed.

Lemma save_failure_run_witness :
  let req := {| image_path := "picture.png"; output_dir := "out";
                quantization_bits := 5; path_exists := true;
                opened := Ok (ramp 20 10);
                save_error := Some (ExternalError "Permission denied") |} in
  saved (conversion_worker req) = None.
Proof.
  intros req.
  refine (proj1 (proj2 (save_failure_run ExcelSizeValidator req (ramp 20 10)
                          (ExternalError "Permission denied") _
                          ltac:(cbn; lia) ltac:(cbn; lia) ltac:(cbn; lia) eq_refl))).
  constructor; cbn; try discriminate; try reflexivity; lia.
Defined.

(* ------------------------------------------------------------------ *)
(** *** The progress messages *)

Lemma div_succ d step :
  0 < step ->
  (d + 1) / step - d / step = if (d + 1) mod step =? 0 then 1 else 0.
Proof.
  intros Hs.
  pose proof (Z.div_mod d step ltac:(lia)) as Hd.
  pose proof (Z.mod_pos_bound d step Hs) as Hr.
  destruct (Z.eq_dec (d mod step + 1) step) as [E | E].
  - assert (H1 : d + 1 = (d / step + 1) * step) by nia.
    rewrite H1, Z.div_mul, Z.mod_mul by lia. cbn. lia.
  - assert (H1 : (d + 1) / step = d / step).
    { symmetry. apply (Z.div_unique_pos _ _ _ (d mod step + 1)); lia. }
    assert (H2 : (d + 1) mod step = d mod step + 1).
    { symmetry. apply (Z.mod_unique_pos _ _ (d / step)); lia. }
    rewrite H1, H2. destruct (d mod step + 1 =? 0) eqn:E0; [|lia].
    apply Z.eqb_eq in E0. lia.
Qed.

Lemma checkpoints_length total done n :
  0 < total / 200 ->
  Z.of_nat (List.length (checkpoints total done n)) =
  (done + Z.of_nat n) / (total / 200) - done / (total / 200).
Proof.
  intros Hs. revert done. induction n as [|n IH]; intros done.
  - cbn [checkpoints List.length]. replace (done + Z.of_nat 0) with done by lia. lia.
  - cbn [checkpoints]. rewrite length_app, Nat2Z.inj_add, IH.
    pose proof (div_succ done _ Hs) as Hd.
    unfold progress_at. destruct (_ =? 0); cbn [List.length];
      replace (done + 1 + Z.of_nat n) with (done + Z.of_nat (S n)) by lia; lia.
Qed.

(** A well-formed run of at least 200 pixels emits one progress message
    per multiple of the step [total_pixels // 200]: that is
    [total_pixels // step] messages, between 200 and 399, and the last one
    reports all pixels done exactly when the step divides their number. *)
Theorem progress_message_count
  (cls : validator_class) (req : request) (img : image) :
  accepted cls req img ->
  0 < MAX_STYLES cls -> quantization_bits req <= 8 ->
  200 <= img_width img * img_height img ->
  let s := run_worker cls req in
  let total := img_width img * img_height img in
  let count := Z.of_nat (List.length (filter is_progress (queue s))) in
  count = total / (total / 200)
  /\ 200 <= count <= 399
  /\ (In (Progress total total) (queue s) <-> total mod (total / 200) = 0).
Proof.
  intros Hacc Hmax Hbits Htotal s total count. subst s count.
  destruct (well_formed_loop cls req img Hacc Hmax Hbits Htotal)
    as (s0 & cs & -> & _ & _ & Hprog & _).
  pose proof (acc_width _ _ _ Hacc). pose proof (acc_height _ _ _ Hacc).
  assert (Hq : filter is_progress (queue (finish req (Ok tt, s0))) =
               checkpoints total 0 (List.length (scan_order img))).
  { unfold finish. destruct (save_error req); state_simpl;
      rewrite filter_app, Hprog; cbn [filter is_progress]; apply app_nil_r. }
  assert (Hstep : 0 < total / 200) by (apply Z.div_str_pos; lia).
  assert (Hlen : Z.of_nat (List.length (scan_order img)) = total)
    by (apply scan_order_length; lia).
  rewrite Hq, checkpoints_length, Hlen by assumption.
  rewrite Z.add_0_l, (Z.div_0_l (total / 200)) by lia. rewrite Z.sub_0_r.
  split; [reflexivity|]. split.
  - pose proof (Z.div_mod total 200 ltac:(lia)) as Hd.
    pose proof (Z.mod_pos_bound total 200 ltac:(lia)) as Hr.
    set (step := total / 200) in *. split.
    + apply Z.div_le_lower_bound; lia.
    + assert (total / step < 400); [|lia].
      apply Z.div_lt_upper_bound; nia.
  - assert (Hin : In (Progress total total) (queue (finish req (Ok tt, s0))) <->
                  In (Progress total total)
                     (filter is_progress (queue (finish req (Ok tt, s0))))).
    { rewrite filter_In. cbn [is_progress]. tauto. }
    rewrite Hin, Hq, in_checkpoints, Hlen. split.
    + intros (k & _ & Hmod & E). injection E as <-. exact Hmod.
    + intros Hmod. exists total. split; [lia | auto].
Qed.

Lemma progress_message_count_witness :
  Z.of_nat (List.length
              (filter is_progress (queue (conversion_worker (request_for (ramp 20 10) 5)))))
  = 20 * 10 / (20 * 10 / 200).
Proof.
  exact (proj1 (progress_message_count ExcelSizeValidator (request_for (ramp 20 10) 5)
                  (ramp 20 10) (ramp_accepted 20 10 5 ltac:(lia) ltac:(lia))
                  ltac:(cbn; lia) ltac:(cbn; lia) ltac:(cbn; lia))).
Defined.

(* ================================================================== *)
(** ** The window: start_conversion, process_queue, reset_ui *)

Lemma process_queue_app ui q1 q2 :
  process_queue ui (q1 ++ q2) = process_queue (process_queue ui q1) q2.
Proof. apply fold_left_app. Qed.

Lemma process_queue_polls ui polls :
  fold_left process_queue polls ui = process_queue ui (List.concat polls).
Proof.
  revert ui. induction polls as [|q polls IH]; intros ui; [reflexivity|].
  cbn [fold_left List.concat]. rewrite IH, process_queue_app. reflexivity.
Qed.

Lemma process_queue_dialogs ui msgs :
  dialogs (process_queue ui msgs) = dialogs ui ++ flat_map dialog_of msgs.
Proof.
  revert ui. induction msgs as [|m msgs IH]; intros ui.
  - cbn. rewrite app_nil_r. reflexivity.
  - cbn [process_queue fold_left flat_map]. fold (process_queue (handle_message ui m) msgs).
    rewrite IH, app_assoc. f_equal. destruct m; cbn; rewrite ?app_nil_r; reflexivity.
Qed.

Lemma process_queue_busy ui msgs :
  busy ui -> forallb advisory msgs = true -> busy (process_queue ui msgs).
Proof.
  revert ui. induction msgs as [|m msgs IH]; intros ui Hui Hadv; [assumption|].
  cbn [forallb] in Hadv. apply andb_true_iff in Hadv. destruct Hadv as [Hm Hadv].
  cbn [process_queue fold_left]. apply IH; [|assumption].
  destruct m; try discriminate; exact Hui.
Qed.

Lemma handle_terminal_idle ui t : is_terminal t = true -> idle (handle_message ui t).
Proof. destruct t; try discriminate; intros _; repeat split. Qed.

(** From a window at rest, [start_conversion] starts a worker and
    disables the button; once [process_queue] has taken all the messages
    of that worker's run, in any number of polls, the window is at rest
    again (flag cleared, button enabled with its first caption, status
    ready, bar at zero), has shown one dialog per warning, success or
    error message, in the order of the messages, and accepts a new
    [start_conversion]. *)
Theorem session_returns_to_rest
  (ui : ui_state) (req : request) (polls : list (list message)) :
  is_running ui = false ->
  List.concat polls = queue (conversion_worker req) ->
  let started := start_conversion ui in
  let ui' := fold_left process_queue polls (fst started) in
  snd started = true
  /\ busy (fst started)
  /\ idle ui'
  /\ dialogs ui' = dialogs ui ++ flat_map dialog_of (queue (conversion_worker req))
  /\ snd (start_conversion ui') = true.
Proof.
  intros Hidle Hpolls started ui'.
  assert (Hs : exists ui1, start_conversion ui = (ui1, true)
                           /\ busy ui1 /\ dialogs ui1 = dialogs ui).
  { unfold start_conversion. rewrite Hidle. eexists. repeat split. }
  destruct Hs as (ui1 & Hs & Hbusy & Hdialogs).
  subst started ui'. rewrite Hs. cbn [fst snd].
  rewrite process_queue_polls, Hpolls.
  destruct (run_worker_queue ExcelSizeValidator req) as (msgs & t & Hq & Hadv & Ht).
  fold (conversion_worker req) in Hq.
  split; [reflexivity|]. split; [exact Hbusy|].
  assert (Hrest : idle (process_queue ui1 (queue (conversion_worker req)))).
  { rewrite Hq, process_queue_app. cbn [process_queue fold_left].
    apply handle_terminal_idle. assumption. }
  split; [exact Hrest|].
  split; [rewrite process_queue_dialogs, Hdialogs; reflexivity|].
  unfold start_conversion. destruct Hrest as (E & _). rewrite E. reflexivity.
Qed.

Lemma session_returns_to_rest_witness :
  let req := request_for (ramp 20 10) 5 in
  idle (fold_left process_queue [queue (conversion_worker req)]
          (fst (start_conversion initial_ui))).
Proof.
  intros req.
  exact (proj1 (proj2 (proj2 (session_returns_to_rest initial_ui req
                                [queue (conversion_worker req)] eq_refl
                                ltac:(cbn [List.concat]; apply app_nil_r))))).
Defined.

(** While messages of the run are still to come, the window stays busy
    however many of them [process_queue] has taken, and a further
    [start_conversion] changes nothing and starts no second worker. *)
Theorem no_second_worker
  (ui : ui_state) (req : request) (taken coming : list message) :
  is_running ui = false ->
  queue (conversion_worker req) = taken ++ coming ->
  coming <> [] ->
  let ui' := process_queue (fst (start_conversion ui)) taken in
  busy ui' /\ start_conversion ui' = (ui', false).
Proof.
  intros Hidle Hq Hcoming ui'.
  destruct (run_worker_queue ExcelSizeValidator req) as (msgs & t & Hq' & Hadv & _).
  fold (conversion_worker req) in Hq'.
  destruct (exists_last Hcoming) as (coming' & t' & ->).
  rewrite Hq', app_assoc in Hq. apply app_inj_tail in Hq. destruct Hq as [-> _].
  rewrite forallb_app in Hadv. apply andb_true_iff in Hadv. destruct Hadv as [Hadv _].
  assert (Hbusy : busy ui').
  { subst ui'. apply process_queue_busy; [|assumption].
    unfold start_conversion. rewrite Hidle. split; reflexivity. }
  split; [exact Hbusy|]. unfold start_conversion. destruct Hbusy as [-> _]. reflexivity.
Qed.

Lemma no_second_worker_witness :
  let req := request_for (ramp 20 10) 5 in
  let ui' := process_queue (fst (start_conversion initial_ui))
               (firstn 7 (queue (conversion_worker req))) in
  busy ui' /\ start_conversion ui' = (ui', false).
Proof.
  intros req.
  refine (no_second_worker initial_ui req (firstn 7 (queue (conversion_worker req)))
            (skipn 7 (queue (conversion_worker req))) eq_refl _ _).
  - symmetry. apply firstn_skipn.
  - vm_compute. discriminate.
Defined.
